(** * Textual flow diagrams: best-parent selection and flow-graph assembly

    A shallow embedding of [lib/textual_flow.py].  Python values keep the
    shape they have in the source: a parent candidate is the tuple
    [(ancestor, rank, generation)], a combination is a list of candidates,
    dictionaries are finite maps, [None] is [option]'s [None], and a raised
    exception is the [Raise] branch of [result]. *)

From Stdlib Require Import ZArith String Ascii List Lia.
From Stdlib Require Import DecimalString HexadecimalString.
From Stdlib Require DecimalZ DecimalPos.
From stdpp Require Import gmap strings list fin_maps.

Local Open Scope Z_scope.
#[local] Set Warnings "-clear-no-such-hyp".

(** ** The Python runtime the module relies on *)

Module Py.

(** Exceptions that the modelled code can raise. [ForestError] is the
    class declared by the module itself; [Other] is any other class, by
    name, as the collaborators of the module may raise. *)
Inductive exn : Set :=
| AssertionError | ValueError | IndexError | KeyError | TypeError
| ForestError
| Other (name : string).

Inductive result (A : Type) : Type :=
| Ok (a : A)
| Raise (e : exn).
Arguments Ok {A} a.
Arguments Raise {A} e.

Definition bind {A B} (c : result A) (k : A -> result B) : result B :=
  match c with
  | Ok a => k a
  | Raise e => Raise e
  end.

(** [for x in l: st = body(st, x)] where the body may raise. *)
Fixpoint for_each {S X} (body : S -> X -> result S) (l : list X) (st : S)
  : result S :=
  match l with
  | [] => Ok st
  | x :: l' => bind (body st x) (for_each body l')
  end.

(** [str(n)] / ["{}".format(n)] for an [int]. *)
Definition str_int (n : Z) : string :=
  DecimalString.NilZero.string_of_int (Z.to_int n).

(** ["{}".format(x)] for a value that is a [str] or [None]. *)
Definition str_opt (x : option string) : string :=
  match x with
  | Some s => s
  | None => "None"
  end.

(** [hex(n)[2:]] for [n >= 0]: lower-case digits, no padding. *)
Definition hex_digits (n : Z) : string :=
  HexadecimalString.NilZero.string_of_uint (N.to_hex_uint (Z.to_N n)).

Definition hex_val (c : ascii) : option Z :=
  let n := Z.of_nat (nat_of_ascii c) in
  if (48 <=? n) && (n <=? 57) then Some (n - 48)
  else if (97 <=? n) && (n <=? 102) then Some (n - 87)
  else if (65 <=? n) && (n <=? 70) then Some (n - 55)
  else None.

Fixpoint int16_acc (acc : Z) (s : string) : option Z :=
  match s with
  | EmptyString => Some acc
  | String c s' =>
      match hex_val c with
      | Some d => int16_acc (16 * acc + d) s'
      | None => None
      end
  end.

(** [int(s, 16)] on a run of hexadecimal digits; anything else is a
    [ValueError] here (the sign, blank and underscore forms that Python
    also reads do not occur in the palette). *)
Definition int16 (s : string) : result Z :=
  match s with
  | EmptyString => Raise ValueError
  | _ => match int16_acc 0 s with
         | Some n => Ok n
         | None => Raise ValueError
         end
  end.

(** [s[i:j]] for [0 <= i <= j]. *)
Definition slice (i j : nat) (s : string) : string :=
  String.substring i (Nat.min (j - i) (String.length s - i)) s.

(** [s.replace(a, b)] for one-character [a] and [b]. *)
Fixpoint replace (a b : ascii) (s : string) : string :=
  match s with
  | EmptyString => EmptyString
  | String c s' => String (if Ascii.eqb c a then b else c) (replace a b s')
  end.

(** [sep.join(l)]. *)
Fixpoint join (sep : string) (l : list string) : string :=
  match l with
  | [] => ""
  | [x] => x
  | x :: l' => x +:+ sep +:+ join sep l'
  end.

(** The value of a call that returned, projected by [f]. *)
Definition returned {A B} (f : A -> B) (c : result A) : result B :=
  match c with
  | Ok a => Ok (f a)
  | Raise e => Raise e
  end.

(** [max(iterable)]: a [ValueError] on an empty sequence. *)
Definition max_of (l : list Z) : result Z :=
  match l with
  | [] => Raise ValueError
  | x :: l' => Ok (fold_left Z.max l' x)
  end.

(** Code that also changes a store of type [S]: what it did to the store
    before an exception was raised stays done. *)
Definition stateful (S A : Type) : Type := S -> result A * S.

Definition lift {S A} (c : result A) : stateful S A := fun s => (c, s).

Definition update {S} (f : S -> S) : stateful S unit := fun s => (Ok tt, f s).

Definition sbind {S A B} (c : stateful S A) (k : A -> stateful S B)
  : stateful S B :=
  fun s => match c s with
           | (Ok a, s') => k a s'
           | (Raise e, s') => (Raise e, s')
           end.

(** [for x in l: body(x)] where the body changes the store and may raise. *)
Fixpoint sfor_each {S X} (body : X -> stateful S unit) (l : list X)
  : stateful S unit :=
  match l with
  | [] => lift (Ok tt)
  | x :: l' => sbind (body x) (fun _ => sfor_each body l')
  end.

End Py.

Import Py.

Notation "x <- c ;; k" := (Py.bind c (fun x => k))
  (at level 100, c at next level, right associativity).

Notation "x <~ c ;; k" := (Py.sbind c (fun x => k))
  (at level 100, c at next level, right associativity).

(** ** Colours *)

Definition COLOURS : list string :=
  [ "#FF8A8A"; "#FF86E3"; "#FF86C2"; "#FE8BF0"; "#EA8DFE"; "#DD88FD"; "#AD8BFE";
    "#FFA4FF"; "#EAA6EA"; "#D698FE"; "#CEA8F4"; "#BCB4F3"; "#A9C5EB"; "#8CD1E6";
    "#8C8CFF"; "#99C7FF"; "#99E0FF"; "#63E9FC"; "#74FEF8"; "#62FDCE"; "#72FE95";
    "#4AE371"; "#80B584"; "#89FC63"; "#36F200"; "#66FF00"; "#DFDF00"; "#DFE32D" ].

Definition ascii_lowercase : list ascii :=
  list_ascii_of_string "abcdefghijklmnopqrstuvwxyz".

(** [{x: COLOURS[(i * 10) % len(COLOURS)] for (i, x) in enumerate(ascii_lowercase)}] *)
Definition COLOURMAP : gmap ascii string :=
  list_to_map
    (imap (fun i x => (x, nth ((i * 10) mod length COLOURS) COLOURS ""))
          ascii_lowercase).

Definition default_colour : string := "#cccccc".

(** [COLOURMAP.get(ch, '#cccccc')] *)
Definition colour_of (ch : ascii) : string :=
  default (default_colour) (COLOURMAP !! ch).

Definition dark (by_ : Z) (x : Z) : string :=
  let new := Z.max (x - by_) 0 in
  hex_digits new.

Definition darken (col : string) (by_ : Z) : result string :=
  match col with
  | EmptyString => Raise IndexError
  | String c0 _ =>
      if Ascii.eqb c0 "#"%char then
        r <- int16 (slice 1 3 col) ;;
        g <- int16 (slice 3 5 col) ;;
        b <- int16 (slice 5 7 col) ;;
        Ok ("#" +:+ dark by_ r +:+ dark by_ g +:+ dark by_ b)
      else Raise AssertionError
  end.

(** The default of [darken]'s keyword argument [by]. *)
Definition darken_default_by : Z := 75.

(** ** Best-parent selection ([get_parents]) *)

(** A parent candidate [(ancestor, rank, generation)]: [x[0]], [x[1]], [x[2]]. *)
Definition candidate : Type := option string * Z * Z.

Definition cand_ancestor (x : candidate) : option string := x.1.1.
Definition cand_rank (x : candidate) : Z := x.1.2.
Definition cand_gen (x : candidate) : Z := x.2.

Definition combination : Type := list candidate.

(** The local variables of [get_parents] that live across loop iterations. *)
Record trackers : Type := Trackers {
  best_parents_by_rank : combination;
  best_rank : option Z;
  best_parents_by_gen : combination;
  best_gen : option Z;
  parents : combination
}.

Definition fresh_trackers : trackers :=
  {| best_parents_by_rank := []; best_rank := None;
     best_parents_by_gen := []; best_gen := None; parents := [] |}.

Definition max_acceptable_gen : Z := 2.

Definition set_by_gen (c : combination) (gen : Z) (t : trackers) : trackers :=
  {| best_parents_by_rank := best_parents_by_rank t; best_rank := best_rank t;
     best_parents_by_gen := c; best_gen := Some gen; parents := parents t |}.

Definition set_by_rank (c : combination) (rank : Z) (t : trackers) : trackers :=
  {| best_parents_by_rank := c; best_rank := Some rank;
     best_parents_by_gen := best_parents_by_gen t; best_gen := best_gen t;
     parents := parents t |}.

Definition set_parents (p : combination) (t : trackers) : trackers :=
  {| best_parents_by_rank := best_parents_by_rank t; best_rank := best_rank t;
     best_parents_by_gen := best_parents_by_gen t; best_gen := best_gen t;
     parents := p |}.

(** The body of [for i, combination in enumerate(combinations)] (the
    progress logging left out). *)
Definition consider (t : trackers) (c : combination) : result trackers :=
  match c with
  | [] => Ok t
  | _ :: _ =>
      rank <- max_of (map cand_rank c) ;;
      gen <- max_of (map cand_gen c) ;;
      if gen >? max_acceptable_gen then Ok t
      else
        t1 <- match best_gen t with
              | None => Ok (set_by_gen c gen t)
              | Some bg =>
                  if gen <? bg then Ok (set_by_gen c gen t)
                  else if gen =? bg then
                    r <- max_of (map cand_rank (best_parents_by_gen t)) ;;
                    if rank <? r then Ok (set_by_gen c gen t) else Ok t
                  else Ok t
              end ;;
        match best_rank t1 with
        | None => Ok (set_by_rank c rank t1)
        | Some br => if rank <? br then Ok (set_by_rank c rank t1) else Ok t1
        end
  end.

(** The candidate forced at the top of an overlapping unit. *)
Definition synthetic_ol_parent : candidate := (Some "OL_PARENT", -1, 1).

Section Selection.

(** [OL_PARENT], imported from [.shared]: the parent label that marks the
    top of an overlapping unit. *)
Variable OL_PARENT : string.

(** The "Analysing results" part of one threshold's iteration. *)
Definition analyse (w1_parent : option string) (t : trackers) : trackers :=
  let p := if decide (best_gen t = Some 1) then best_parents_by_gen t
           else best_parents_by_rank t in
  let p := if decide (w1_parent = Some OL_PARENT) then
             match p with
             | [] => [synthetic_ol_parent]
             | _ :: _ => p
             end
           else p in
  set_parents p t.

(** One iteration of [for conn_value in connectivity], once the provider
    has answered with [combinations]. *)
Definition threshold_pass (w1_parent : option string)
           (combinations : list combination) (t : trackers) : result trackers :=
  t' <- for_each consider combinations t ;;
  Ok (analyse w1_parent t').

(** [coh.parent_combinations(w1_reading, w1_parent, conn_value)] for the
    coherence object of one witness; [None] stands for a raised exception. *)
Definition provider : Type :=
  string -> option string -> Z -> option (list combination).

Fixpoint get_parents_loop (coh : provider) (w1_reading : string)
         (w1_parent : option string) (connectivity : list Z) (t : trackers)
         (parent_maps : gmap Z (option combination))
  : result (option (gmap Z (option combination))) :=
  match connectivity with
  | [] => Ok (Some parent_maps)
  | conn_value :: rest =>
      match coh w1_reading w1_parent conn_value with
      | None => Ok None
      | Some combinations =>
          t' <- threshold_pass w1_parent combinations t ;;
          get_parents_loop coh w1_reading w1_parent rest t'
            (<[conn_value := Some (parents t')]> parent_maps)
      end
  end.

(** The database handle and the two collaborators reached through it. *)
Variable database : Type.
(** [GenealogicalCoherence(db_file, w1, variant_unit)] after [_generate()]. *)
Variable GenealogicalCoherence : database -> string -> string -> provider.

Definition get_parents (w1 w1_reading : string) (w1_parent : option string)
           (variant_unit : string) (connectivity : list Z) (db_file : database)
  : result (option (gmap Z (option combination))) :=
  let coh := GenealogicalCoherence db_file w1 variant_unit in
  get_parents_loop coh w1_reading w1_parent connectivity fresh_trackers ∅.

End Selection.

Arguments get_parents OL_PARENT {database} GenealogicalCoherence.

(** ** The directed graph ([networkx.DiGraph]) *)

(** Only what [draw_diagram] uses: the node dictionary (node to attribute
    dictionary) and the edge set.  A node is any hashable value the module
    passes, here a [str] or [None]; the release of networkx that offers the
    top-level [write_dot] takes [None] as a node like any other value. *)
Record DiGraph : Type := MkDiGraph {
  node : gmap (option string) (gmap string string);
  edges : gset (option string * option string)
}.

Definition empty_graph : DiGraph := {| node := ∅; edges := ∅ |}.

Definition add_node (n : option string) (d : gmap string string) (G : DiGraph)
  : DiGraph :=
  {| node := <[n := d ∪ default ∅ (node G !! n)]> (node G); edges := edges G |}.

Definition add_nodes_from (l : list (string * gmap string string)) (G : DiGraph)
  : DiGraph :=
  fold_left (fun G nd => add_node (Some nd.1) nd.2 G) l G.

Definition add_edge (u v : option string) (G : DiGraph) : DiGraph :=
  let G1 := add_node u ∅ G in
  let G2 := add_node v ∅ G1 in
  {| node := node G2; edges := {[ (u, v) ]} ∪ edges G2 |}.

(** ** The flow-graph builder ([class TextualFlow]) *)

(** A row of [SELECT witness, label, parent FROM cbgm]. *)
Definition row : Type := string * string * option string.

Definition row_witness (x : row) : string := x.1.1.
Definition row_label (x : row) : string := x.1.2.
Definition row_parent (x : row) : option string := x.2.

(** The node entry built for a row in [TextualFlow.textual_flow]. *)
Definition styled (x : row) : result (string * gmap string string) :=
  match row_label x with
  | EmptyString => Raise IndexError
  | String ch _ =>
      color <- darken (colour_of ch) darken_default_by ;;
      Ok (row_witness x,
          <["color" := color]> (<["fillcolor" := colour_of ch]>
            (<["style" := "filled"]> ∅)))
  end.

Fixpoint styled_all (data : list row)
  : result (list (string * gmap string string)) :=
  match data with
  | [] => Ok []
  | x :: data' =>
      w <- styled x ;;
      ws <- styled_all data' ;;
      Ok (w :: ws)
  end.

(** The caption stored in [rank_mapping[w1]]. *)
Definition caption (w1 w1_reading : string) (parents : combination) : string :=
  match parents with
  | _ :: _ :: _ =>
      w1 +:+ "/[" +:+
      join ", " (map (fun x => str_opt (cand_ancestor x) +:+ "." +:+
                               str_int (cand_rank x)) parents) +:+
      "] (" +:+ w1_reading +:+ ")"
  | [p] =>
      if cand_rank p =? 1 then w1 +:+ " (" +:+ w1_reading +:+ ")"
      else w1 +:+ "/" +:+ str_int (cand_rank p) +:+ " (" +:+ w1_reading +:+ ")"
  | [] => w1 +:+ " (" +:+ w1_reading +:+ ")"
  end.

(** [all(x[0] is None for x in parents)] *)
Definition all_null (parents : combination) : bool :=
  forallb (fun x => bool_decide (cand_ancestor x = None)) parents.

(** The output artifact of [__init__]:
    ["textual_flow_{}_c{}{}.svg".format(variant_unit.replace('/', '_'), conn_value, suffix)] *)
Definition output_file_name (variant_unit : string) (conn_value : Z)
           (suffix : string) : string :=
  "textual_flow_" +:+ replace "/"%char "_"%char variant_unit +:+
  "_c" +:+ str_int conn_value +:+ suffix +:+ ".svg".

Module TextualFlow.

(** The attributes of [self] in direct (non-MPI) mode. *)
Record t (database : Type) : Type := Self {
  output_files : gmap Z string;
  connectivity : list Z;
  db_file : database;
  variant_unit : string;
  perfect_only : bool;
  suffix : string;
  parent_maps : gmap string (option (gmap Z (option combination)))
}.
Arguments Self {database}.
Arguments output_files {database}.
Arguments connectivity {database}.
Arguments db_file {database}.
Arguments variant_unit {database}.
Arguments perfect_only {database}.
Arguments suffix {database}.
Arguments parent_maps {database}.

(** What one call of [draw_diagram] hands to the renderer: the file it
    writes, the graph before [relabel_nodes], and [rank_mapping]. *)
Definition artifact : Type := string * DiGraph * gmap string string.

Section Methods.

Variable OL_PARENT : string.
Variable database : Type.
Variable GenealogicalCoherence : database -> string -> string -> provider.
(** The rows of the [cbgm] table for a variant unit. *)
Variable select_cbgm : database -> string -> list row.

(** [self.parent_maps[w1][conn_value]], then the [None] test. *)
Definition lookup_parents (self : t database) (w1 : string) (conn_value : Z)
  : result combination :=
  match parent_maps self !! w1 with
  | None => Raise KeyError
  | Some None => Raise TypeError
  | Some (Some m) =>
      match m !! conn_value with
      | None => Raise KeyError
      | Some None => Ok []
      | Some (Some parents) => Ok parents
      end
  end.

(** The body of [for w1, w1_reading, w1_parent in data]. *)
Definition draw_row (self : t database) (conn_value : Z)
           (st : DiGraph * gmap string string) (x : row)
  : result (DiGraph * gmap string string) :=
  let '(G, rank_mapping) := st in
  let w1 := row_witness x in
  let w1_reading := row_label x in
  parents <- lookup_parents self w1 conn_value ;;
  let rank_mapping := <[w1 := caption w1 w1_reading parents]> rank_mapping in
  if all_null parents then
    if decide (w1 = "A") then Ok (G, rank_mapping)
    else if perfect_only self then Raise ForestError
    else Ok (G, rank_mapping)
  else
    Ok (fold_left (fun G p => add_edge (cand_ancestor p) (Some w1) G) parents G,
        rank_mapping).

(** [draw_diagram] up to the hand-over to the renderer. *)
Definition draw_diagram (self : t database) (conn_value : Z)
           (data : list row) (witnesses : list (string * gmap string string))
  : result artifact :=
  let G := add_nodes_from witnesses empty_graph in
  st <- for_each (draw_row self conn_value) data (G, ∅) ;;
  match output_files self !! conn_value with
  | None => Raise KeyError
  | Some output_file => Ok (output_file, st.1, st.2)
  end.

(** Step 1 of [textual_flow], direct mode: one [get_parents] per row. *)
Definition resolve_row (self : t database) (x : row) : result (t database) :=
  pm <- get_parents OL_PARENT GenealogicalCoherence
          (row_witness x) (row_label x) (row_parent x)
          (variant_unit self) (connectivity self) (db_file self) ;;
  Ok (Self (output_files self) (connectivity self) (db_file self)
           (variant_unit self) (perfect_only self) (suffix self)
           (<[row_witness x := pm]> (parent_maps self))).

(** The task queued for a row in MPI mode (the arguments of [get_parents]). *)
Definition mpi_task (self : t database) (x : row)
  : string * string * option string * string * list Z * database :=
  (row_witness x, row_label x, row_parent x,
   variant_unit self, connectivity self, db_file self).

(** What a worker computes for a task: [get_parents] on its arguments. *)
Definition run_task
           (args : string * string * option string * string * list Z * database)
  : result (option (gmap Z (option combination))) :=
  let '(w1, w1_reading, w1_parent, vu, conns, db) := args in
  get_parents OL_PARENT GenealogicalCoherence w1 w1_reading w1_parent vu conns db.

(** [mpi_handle_result(self, args, ret)]: [self.parent_maps[args[0]] = ret]. *)
Definition mpi_handle_result (self : t database)
           (args : string * string * option string * string * list Z * database)
           (ret : option (gmap Z (option combination))) : t database :=
  Self (output_files self) (connectivity self) (db_file self)
       (variant_unit self) (perfect_only self) (suffix self)
       (<[args.1.1.1.1.1 := ret]> (parent_maps self)).

Fixpoint draw_all (self : t database) (conns : list Z) (data : list row)
         (witnesses : list (string * gmap string string))
  : result (list artifact) :=
  match conns with
  | [] => Ok []
  | conn_value :: rest =>
      a <- draw_diagram self conn_value data witnesses ;;
      others <- draw_all self rest data witnesses ;;
      Ok (a :: others)
  end.

Definition textual_flow (self : t database) : result (list artifact) :=
  let data := select_cbgm (db_file self) (variant_unit self) in
  witnesses <- styled_all data ;;
  self' <- for_each resolve_row data self ;;
  draw_all self' (connectivity self') data witnesses.

(** The "fast abort" scan of [__init__]; [exists_] is [os.path.exists]. *)
Fixpoint scan_outputs (exists_ : string -> bool) (variant_unit suffix : string)
         (connectivity : list Z) (acc : gmap Z string * list Z)
  : gmap Z string * list Z :=
  match connectivity with
  | [] => acc
  | conn_value :: rest =>
      let output_file := output_file_name variant_unit conn_value suffix in
      if exists_ output_file then
        scan_outputs exists_ variant_unit suffix rest acc
      else
        scan_outputs exists_ variant_unit suffix rest
          (<[conn_value := output_file]> acc.1, acc.2 ++ [conn_value])
  end.

(** [TextualFlow(db_file, variant_unit, connectivity, perfect_only, suffix)]
    with [mpi=False]: the artifacts written, in order. *)
Definition init (exists_ : string -> bool) (db_file : database)
           (variant_unit : string) (connectivity : list Z)
           (perfect_only : bool) (suffix : string) : result (list artifact) :=
  let scanned := scan_outputs exists_ variant_unit suffix connectivity (∅, []) in
  if decide (scanned.1 = ∅) then Ok []
  else
    textual_flow
      (Self scanned.1 scanned.2 db_file variant_unit perfect_only suffix ∅).

End Methods.

Arguments lookup_parents {database}.
Arguments draw_row {database}.
Arguments draw_diagram {database}.
Arguments draw_all {database}.
Arguments resolve_row OL_PARENT {database}.
Arguments mpi_task {database}.
Arguments run_task OL_PARENT {database}.
Arguments mpi_handle_result {database}.
Arguments textual_flow OL_PARENT {database}.
Arguments init OL_PARENT {database}.

End TextualFlow.

(** ** The entry point *)

Section EntryPoint.

Variable OL_PARENT : string.
Variable database : Type.
Variable GenealogicalCoherence : database -> string -> string -> provider.
Variable select_cbgm : database -> string -> list row.

(** The files an artifact list leaves behind. *)
Definition written (arts : list TextualFlow.artifact) : list string :=
  map (fun a => a.1.1) arts.

(** [textual_flow(db_file, variant_units, connectivity, perfect_only, suffix)]
    when [OMPI_COMM_WORLD_SIZE] is not in the environment.  [files] is the
    set of paths that exist when the call starts; the result lists the
    artifacts written, unit after unit. *)
Fixpoint textual_flow (files : gset string) (db_file : database)
         (variant_units : list string) (connectivity : list Z)
         (perfect_only : bool) (suffix : string)
  : result (list TextualFlow.artifact) :=
  match variant_units with
  | [] => Ok []
  | vu :: rest =>
      arts <- TextualFlow.init OL_PARENT GenealogicalCoherence select_cbgm
                (fun f => bool_decide (f ∈ files))
                db_file vu connectivity false "" ;;
      others <- textual_flow (files ∪ list_to_set (written arts)) db_file rest
                  connectivity perfect_only suffix ;;
      Ok (arts ++ others)
  end.

End EntryPoint.

Arguments textual_flow OL_PARENT {database}.

(** ** The build as a process: collaborators that fail, files on disk *)

(** The definitions above take the coherence object, the rows of the unit
    and the renderer as given.  Here each collaborator either returns or
    raises, and the files on disk are a store that the build reads
    ([os.path.exists]) and writes ([open(output_file, 'w')], [dot]). *)

(** The files on disk, as far as the module is concerned: a path that exists
    is mapped to the diagram it holds (the graph and the captions its nodes
    are relabelled with), or to [None] when it holds anything else, an empty
    or partial file included. *)
Abbreviation disk := (gmap string (option (DiGraph * gmap string string))).

(** [os.path.exists(path)] *)
Definition path_exists (d : disk) (path : string) : bool :=
  bool_decide (is_Some (d !! path)).

Module Process.

Section Collaborators.

Variable OL_PARENT : string.
Variable database : Type.
(** [GenealogicalCoherence(db_file, w1, variant_unit, pretty_p=False)]
    followed by [coh._generate()]: the coherence object, or the exception
    that either of the two raised. *)
Variable GenealogicalCoherence : database -> string -> string -> result provider.
(** [sqlite3.connect(db_file)], [cursor()] and [list(cursor.execute(sql))]:
    the rows of the [cbgm] table for a variant unit, or the exception
    raised on the way. *)
Variable select_cbgm : database -> string -> result (list row).
(** [NamedTemporaryFile()] and [networkx.write_dot] on the relabelled graph. *)
Variable write_dot : DiGraph -> gmap string string -> result unit.
(** [open(output_file, 'w')]: returns once the file is created or truncated. *)
Variable open_w : string -> result unit.
(** [subprocess.check_call(['dot', '-Tsvg', dotfile.name], stdout=...)]: returns
    when [dot] has run and exited with status 0. *)
Variable dot : DiGraph -> gmap string string -> result unit.

(** [get_parents]: the coherence object is built outside the [try]. *)
Definition get_parents (w1 w1_reading : string) (w1_parent : option string)
           (variant_unit : string) (connectivity : list Z) (db_file : database)
  : result (option (gmap Z (option combination))) :=
  coh <- GenealogicalCoherence db_file w1 variant_unit ;;
  get_parents_loop OL_PARENT coh w1_reading w1_parent connectivity
    fresh_trackers ∅.

(** Step 1 of [TextualFlow.textual_flow], direct mode. *)
Definition resolve_row (self : TextualFlow.t database) (x : row)
  : result (TextualFlow.t database) :=
  pm <- get_parents (row_witness x) (row_label x) (row_parent x)
          (TextualFlow.variant_unit self) (TextualFlow.connectivity self)
          (TextualFlow.db_file self) ;;
  Ok (TextualFlow.Self
        (TextualFlow.output_files self) (TextualFlow.connectivity self)
        (TextualFlow.db_file self) (TextualFlow.variant_unit self)
        (TextualFlow.perfect_only self) (TextualFlow.suffix self)
        (<[row_witness x := pm]> (TextualFlow.parent_maps self))).

(** [TextualFlow.draw_diagram] as a whole: the graph is built, written to a
    temporary dot file, and rendered into the output file.  The output file
    is opened for writing, and so exists, before [dot] runs. *)
Definition draw_diagram (self : TextualFlow.t database) (conn_value : Z)
           (data : list row) (witnesses : list (string * gmap string string))
  : stateful disk unit :=
  a <~ lift (TextualFlow.draw_diagram self conn_value data witnesses) ;;
  let '(output_file, G, rank_mapping) := a in
  _ <~ lift (write_dot G rank_mapping) ;;
  _ <~ lift (open_w output_file) ;;
  _ <~ update (insert output_file None) ;;
  _ <~ lift (dot G rank_mapping) ;;
  update (insert output_file (Some (G, rank_mapping))).

(** [TextualFlow.textual_flow], direct mode. *)
Definition textual_flow (self : TextualFlow.t database) : stateful disk unit :=
  data <~ lift (select_cbgm (TextualFlow.db_file self)
                            (TextualFlow.variant_unit self)) ;;
  witnesses <~ lift (styled_all data) ;;
  self' <~ lift (for_each resolve_row data self) ;;
  sfor_each (fun conn_value => draw_diagram self' conn_value data witnesses)
            (TextualFlow.connectivity self').

(** The attributes [__init__] has set when it calls [self.textual_flow()]. *)
Definition set_up (d : disk) (db_file : database) (variant_unit : string)
           (connectivity : list Z) (perfect_only : bool) (suffix : string)
  : TextualFlow.t database :=
  let scanned := TextualFlow.scan_outputs (path_exists d) variant_unit suffix
                   connectivity (∅, []) in
  TextualFlow.Self scanned.1 scanned.2 db_file variant_unit perfect_only
                   suffix ∅.

(** [TextualFlow(db_file, variant_unit, connectivity, perfect_only, suffix)]
    with [mpi=False]. *)
Definition init (db_file : database) (variant_unit : string)
           (connectivity : list Z) (perfect_only : bool) (suffix : string)
  : stateful disk unit :=
  fun d =>
    let self := set_up d db_file variant_unit connectivity perfect_only suffix in
    if decide (TextualFlow.output_files self = ∅) then (Ok tt, d)
    else textual_flow self d.

End Collaborators.

Arguments get_parents OL_PARENT {database}.
Arguments resolve_row OL_PARENT {database}.
Arguments draw_diagram {database}.
Arguments textual_flow OL_PARENT {database}.
Arguments set_up {database}.
Arguments init OL_PARENT {database}.

End Process.

(** ** Vocabulary for the selection properties *)

(** [max(x[1] for x in c)] and [max(x[2] for x in c)] of a non-empty
    combination. *)
Definition comb_rank (c : combination) : Z :=
  match map cand_rank c with
  | [] => 0
  | x :: l => fold_left Z.max l x
  end.

Definition comb_gen (c : combination) : Z :=
  match map cand_gen c with
  | [] => 0
  | x :: l => fold_left Z.max l x
  end.

(** A combination survives the filter when it is non-empty and its maximum
    generation does not exceed the cap. *)
Definition survives (c : combination) : bool :=
  match c with
  | [] => false
  | _ :: _ => comb_gen c <=? max_acceptable_gen
  end.

(** [g] is the least generation among the survivors of [l]. *)
Definition min_gen_is (l : list combination) (g : Z) : Prop :=
  (∃ c, c ∈ l ∧ survives c = true ∧ comb_gen c = g) ∧
  (∀ c, c ∈ l → survives c = true → g ≤ comb_gen c).

(** [sel] sits in [l], survives, has the least generation of all survivors,
    and among the survivors of its generation has the least rank, the
    earliest such combination winning. *)
Definition by_gen_winner (l : list combination) (sel : combination) : Prop :=
  ∃ pre post,
    l = pre ++ sel :: post ∧ survives sel = true ∧
    (∀ c, c ∈ l → survives c = true → comb_gen sel ≤ comb_gen c) ∧
    (∀ c, c ∈ pre → survives c = true → comb_gen c = comb_gen sel →
          comb_rank sel < comb_rank c) ∧
    (∀ c, c ∈ post → survives c = true → comb_gen c = comb_gen sel →
          comb_rank sel ≤ comb_rank c).

(** [sel] is the first survivor of [l] whose rank is the least of all
    survivors. *)
Definition by_rank_winner (l : list combination) (sel : combination) : Prop :=
  ∃ pre post,
    l = pre ++ sel :: post ∧ survives sel = true ∧
    (∀ c, c ∈ pre → survives c = true → comb_rank sel < comb_rank c) ∧
    (∀ c, c ∈ post → survives c = true → comb_rank sel ≤ comb_rank c).

(** What the trackers hold after the combinations [l] went through
    [consider], starting from [fresh_trackers]. *)
Definition tracked (t : trackers) (l : list combination) : Prop :=
  match best_gen t, best_rank t with
  | None, None =>
      (∀ c, c ∈ l → survives c = false) ∧
      best_parents_by_gen t = [] ∧ best_parents_by_rank t = []
  | Some g, Some r =>
      g = comb_gen (best_parents_by_gen t) ∧
      r = comb_rank (best_parents_by_rank t) ∧
      by_gen_winner l (best_parents_by_gen t) ∧
      by_rank_winner l (best_parents_by_rank t)
  | _, _ => False
  end.

(** ** Vocabulary for the artifact cache *)

(** The artifact of threshold [c] is not there when the unit is set up. *)
Definition artifact_absent (exists_ : string -> bool)
           (variant_unit suffix : string) (c : Z) : Prop :=
  exists_ (output_file_name variant_unit c suffix) = false.

#[global] Instance artifact_absent_dec exists_ variant_unit suffix c :
  Decision (artifact_absent exists_ variant_unit suffix c).
Proof. unfold artifact_absent. apply _. Defined.

(** ** Vocabulary for the parent maps *)

(** The entry of [parent_maps] for a witness is a map with a selection for
    every threshold of [conns]. *)
Definition resolved (conns : list Z)
           (e : option (option (gmap Z (option combination)))) : Prop :=
  exists m, e = Some (Some m) /\
            forall c, c ∈ conns -> exists sel, m !! c = Some (Some sel).

(** ** Vocabulary for the collaborators *)

(** Two outcomes of building a coherence object that cannot be told apart
    by asking at the thresholds that satisfy [asked]: the same exception, or
    objects that answer alike there. *)
Definition same_answers (asked : Z -> Prop) (a b : result provider) : Prop :=
  match a, b with
  | Ok coh, Ok coh' =>
      forall r p c, asked c -> coh r p c = coh' r p c
  | Raise e, Raise e' => e = e'
  | _, _ => False
  end.

(** The coherence object of a constructor call, where the call returned. *)
Definition built (c : result provider) : provider :=
  match c with
  | Ok coh => coh
  | Raise _ => fun _ _ _ => None
  end.

(** ** Concrete runs used by the examples *)

Module Scenario.

(** No artifact exists yet. *)
Definition no_file : string -> bool := fun _ => false.

(** Unit "1/1" with witnesses A, B and C. *)
Definition rows_abc : unit -> string -> list row :=
  fun _ _ => [ ("A", "a", None); ("B", "b", Some "A"); ("C", "a", Some "A") ].

(** The provider answers [[("A", 1, 1)]] for B, [[("A", 2, 1)]] for C and
    nothing for A. *)
Definition coh_abc : unit -> string -> string -> provider :=
  fun _ w1 _ _ _ _ =>
    if decide (w1 = "B") then Some [ [(Some "A", 1, 1)] ]
    else if decide (w1 = "C") then Some [ [(Some "A", 2, 1)] ]
    else Some [].

(** As [coh_abc], but the provider raises for B at threshold 5. *)
Definition coh_failing : unit -> string -> string -> provider :=
  fun db w1 vu reading parent conn =>
    if bool_decide (w1 = "B") && (conn =? 5) then None
    else coh_abc db w1 vu reading parent conn.

(** Unit "1/1" with the initial text A and a witness D that nothing explains. *)
Definition rows_orphan : unit -> string -> list row :=
  fun _ _ => [ ("A", "a", None); ("D", "b", Some "a") ].

(** Unit "1/1" where C sits at the top of an overlapping unit. *)
Definition rows_overlap : unit -> string -> list row :=
  fun _ _ => [ ("A", "a", None); ("C", "b", Some "OL_PARENT") ].

(** Only the artifact of threshold 3 (unit "1/1", no suffix) exists. *)
Definition only_c3 : string -> bool :=
  fun f => String.eqb f "textual_flow_1_1_c3.svg".

(** As [coh_abc], but the provider raises at threshold 3. *)
Definition coh_raising_at_3 : unit -> string -> string -> provider :=
  fun db w1 vu reading parent conn =>
    if conn =? 3 then None else coh_abc db w1 vu reading parent conn.

(** A provider that answers [[("A", 5, 1)]] at threshold 10 and nothing at
    any other threshold. *)
Definition coh_loose_only : unit -> string -> string -> provider :=
  fun _ _ _ _ _ conn =>
    if conn =? 10 then Some [ [(Some "A", 5, 1)] ] else Some [].

(** A provider that never finds a combination. *)
Definition coh_nothing : unit -> string -> string -> provider :=
  fun _ _ _ _ _ _ => Some [].

(** A provider that answers [[("A", 5, 1)]] at threshold 10 and
    [[("Z", 9, 2)]] at any other threshold. *)
Definition coh_loose_then_far : unit -> string -> string -> provider :=
  fun _ _ _ _ _ conn =>
    if conn =? 10 then Some [ [(Some "A", 5, 1)] ]
    else Some [ [(Some "Z", 9, 2)] ].

(** A provider that answers [[("A", 5, 1)]] at threshold 10 and, at any
    other threshold, an empty combination and one of generation 3. *)
Definition coh_loose_then_none : unit -> string -> string -> provider :=
  fun _ _ _ _ _ conn =>
    if conn =? 10 then Some [ [(Some "A", 5, 1)] ]
    else Some [ []; [(Some "E", 1, 3)] ].

(** Collaborators that return: every coherence object is built, the query
    gives the rows, and the renderer does its work. *)
Definition builds (coh : unit -> string -> string -> provider)
  : unit -> string -> string -> result provider :=
  fun db w1 vu => Ok (coh db w1 vu).

Definition answers (rows : unit -> string -> list row)
  : unit -> string -> result (list row) :=
  fun db vu => Ok (rows db vu).

Definition writes : DiGraph -> gmap string string -> result unit :=
  fun _ _ => Ok tt.

Definition opens : string -> result unit := fun _ => Ok tt.

(** A [dot] that is not installed. *)
Definition no_dot : DiGraph -> gmap string string -> result unit :=
  fun _ _ => Raise (Other "FileNotFoundError").

(** A disk where only the artifact of threshold 3 (unit "1/1", no suffix)
    exists. *)
Definition disk_c3 : disk := {[ "textual_flow_1_1_c3.svg" := None ]}.

End Scenario.

(** ** Properties of the colour helpers *)

(** C10: the label character 'i' selects the palette colour "#36F200", and
    [darken] turns it into "#0a70": each channel is written without
    padding, so the result has 5 characters, fewer than the 7 of "#RRGGBB". *)
Theorem darken_unpadded_hex :
  colour_of "i"%char = "#36F200" /\
  int16 (slice 1 3 "#36F200") = Ok 54 /\
  dark darken_default_by 54 = "0" /\
  darken (colour_of "i"%char) darken_default_by = Ok "#0a70" /\
  (String.length "#0a70" < 7)%nat.
Proof.
  repeat split; try (vm_compute; reflexivity).
  vm_compute. lia.
Qed.

(** ** The selection pass *)

Lemma max_of_rank c : c ≠ [] → max_of (map cand_rank c) = Ok (comb_rank c).
Proof. destruct c; [done | reflexivity]. Qed.

Lemma max_of_gen c : c ≠ [] → max_of (map cand_gen c) = Ok (comb_gen c).
Proof. destruct c; [done | reflexivity]. Qed.

Lemma survives_nonempty c : survives c = true → c ≠ [].
Proof. by destruct c. Qed.

Lemma survives_gen c : survives c = true → comb_gen c ≤ max_acceptable_gen.
Proof. destruct c; [done |]. unfold survives. lia. Qed.

Lemma for_each_cons {S X} (body : S → X → result S) x l st :
  for_each body (x :: l) st = (st' <- body st x ;; for_each body l st').
Proof. done. Qed.

Lemma by_gen_winner_skip l sel c :
  by_gen_winner l sel →
  (survives c = true → comb_gen sel < comb_gen c ∨
     (comb_gen sel = comb_gen c ∧ comb_rank sel ≤ comb_rank c)) →
  by_gen_winner (l ++ [c]) sel.
Proof.
  intros (pre & post & -> & Hs & Hmin & Hpre & Hpost) Hc.
  exists pre, (post ++ [c]). split; [by rewrite <- app_assoc |].
  split; [done |]. split; [| split; [done |]].
  - intros c' Hin Hs'. apply elem_of_app in Hin as [Hin | Hin].
    + by apply Hmin.
    + apply list_elem_of_singleton in Hin as ->. destruct (Hc Hs'); lia.
  - intros c' Hin Hs' Hg. apply elem_of_app in Hin as [Hin | Hin].
    + by apply Hpost.
    + apply list_elem_of_singleton in Hin as ->. destruct (Hc Hs'); lia.
Qed.

Lemma by_gen_winner_take l w c :
  by_gen_winner l w → survives c = true →
  comb_gen c < comb_gen w ∨
    (comb_gen c = comb_gen w ∧ comb_rank c < comb_rank w) →
  by_gen_winner (l ++ [c]) c.
Proof.
  intros (pre & post & -> & Hs & Hmin & Hpre & Hpost) Hsc Hc.
  exists (pre ++ w :: post), []. split; [done |]. split; [done |].
  assert (Hw : ∀ c', c' ∈ pre ++ w :: post → survives c' = true →
               comb_gen c' = comb_gen w → comb_rank w ≤ comb_rank c').
  { intros c' Hin Hs' Hg. apply elem_of_app in Hin as [Hin | Hin].
    - specialize (Hpre c' Hin Hs' Hg). lia.
    - apply elem_of_cons in Hin as [-> | Hin]; [lia |]. by apply Hpost. }
  split; [| split].
  - intros c' Hin Hs'. apply elem_of_app in Hin as [Hin | Hin].
    + specialize (Hmin c' Hin Hs'). lia.
    + apply list_elem_of_singleton in Hin as ->. lia.
  - intros c' Hin Hs' Hg. specialize (Hmin c' Hin Hs').
    destruct Hc as [Hc | [Hc1 Hc2]]; [lia |].
    assert (comb_gen c' = comb_gen w) as Hgw by lia.
    specialize (Hw c' Hin Hs' Hgw). lia.
  - intros c' Hin. by apply elem_of_nil in Hin.
Qed.

Lemma by_rank_winner_skip l sel c :
  by_rank_winner l sel →
  (survives c = true → comb_rank sel ≤ comb_rank c) →
  by_rank_winner (l ++ [c]) sel.
Proof.
  intros (pre & post & -> & Hs & Hpre & Hpost) Hc.
  exists pre, (post ++ [c]). split; [by rewrite <- app_assoc |].
  split; [done |]. split; [done |].
  intros c' Hin Hs'. apply elem_of_app in Hin as [Hin | Hin].
  - by apply Hpost.
  - apply list_elem_of_singleton in Hin as ->. by apply Hc.
Qed.

Lemma by_rank_winner_take l w c :
  by_rank_winner l w → survives c = true → comb_rank c < comb_rank w →
  by_rank_winner (l ++ [c]) c.
Proof.
  intros (pre & post & -> & Hs & Hpre & Hpost) Hsc Hc.
  exists (pre ++ w :: post), []. split; [done |]. split; [done |]. split.
  - intros c' Hin Hs'. apply elem_of_app in Hin as [Hin | Hin].
    + specialize (Hpre c' Hin Hs'). lia.
    + apply elem_of_cons in Hin as [-> | Hin]; [lia |].
      specialize (Hpost c' Hin Hs'). lia.
  - intros c' Hin. by apply elem_of_nil in Hin.
Qed.

Lemma winner_first l c :
  (∀ c', c' ∈ l → survives c' = false) → survives c = true →
  by_gen_winner (l ++ [c]) c ∧ by_rank_winner (l ++ [c]) c.
Proof.
  intros Hl Hc.
  assert (Hno : ∀ c', c' ∈ l → survives c' = true → False).
  { intros c' Hin Hs. rewrite (Hl c' Hin) in Hs. done. }
  split; exists l, []; (split; [done |]); (split; [done |]).
  - split; [| split].
    + intros c' Hin Hs'. apply elem_of_app in Hin as [Hin | Hin].
      * destruct (Hno c' Hin Hs').
      * apply list_elem_of_singleton in Hin as ->. lia.
    + intros c' Hin Hs'. destruct (Hno c' Hin Hs').
    + intros c' Hin. by apply elem_of_nil in Hin.
  - split.
    + intros c' Hin Hs'. destruct (Hno c' Hin Hs').
    + intros c' Hin. by apply elem_of_nil in Hin.
Qed.

Lemma consider_tracked t l c :
  tracked t l →
  ∃ t', consider t c = Ok t' ∧ tracked t' (l ++ [c]) ∧ parents t' = parents t.
Proof.
  intros Ht. destruct (survives c) eqn:Hs.
  2: { (* not a survivor: the trackers are left alone *)
    exists t. split.
    - destruct c as [| x c]; [done |]. unfold consider.
      rewrite max_of_rank, max_of_gen by done. simpl.
      unfold survives in Hs.
      destruct (comb_gen (x :: c) >? max_acceptable_gen) eqn:Hg; [done | lia].
    - split; [| done]. unfold tracked in *.
      destruct (best_gen t), (best_rank t); try done.
      + destruct Ht as (? & ? & Hg & Hr). split; [done |]. split; [done |].
        split; [apply by_gen_winner_skip | apply by_rank_winner_skip];
          try done; intros Hs'; congruence.
      + destruct Ht as (Hl & ? & ?). split; [| done].
        intros c' Hin. apply elem_of_app in Hin as [Hin | Hin]; [by apply Hl |].
        by apply list_elem_of_singleton in Hin as ->. }
  pose proof (survives_nonempty _ Hs) as Hne.
  pose proof (survives_gen _ Hs) as Hle.
  unfold consider. destruct c as [| x c]; [done |].
  rewrite max_of_rank, max_of_gen by done. simpl.
  destruct (comb_gen (x :: c) >? max_acceptable_gen) eqn:Hg; [lia |].
  clear Hg. set (cc := x :: c) in *.
  unfold tracked in Ht.
  destruct (best_gen t) as [g |] eqn:Hbg, (best_rank t) as [r |] eqn:Hbr;
    try done.
  - destruct Ht as (-> & -> & Hgw & Hrw).
    assert (Hwne : best_parents_by_gen t ≠ []).
    { destruct Hgw as (? & ? & ? & Hsw & ?). by apply survives_nonempty. }
    destruct (comb_gen cc <? comb_gen (best_parents_by_gen t)) eqn:Hlt; simpl.
    + rewrite Hbr.
      destruct (comb_rank cc <? comb_rank (best_parents_by_rank t)) eqn:Hr;
        eexists; (split; [reflexivity |]); (split; [| done]);
        unfold tracked; simpl; rewrite ?Hbr;
        (split; [done |]); (split; [done |]); split;
        try (eapply by_gen_winner_take; [done | done | lia]);
        try (eapply by_rank_winner_take; [done | done | lia]);
        try (apply by_rank_winner_skip; [done | lia]).
    + destruct (comb_gen cc =? comb_gen (best_parents_by_gen t)) eqn:Heq; simpl.
      * rewrite max_of_rank by done. simpl.
        destruct (comb_rank cc <? comb_rank (best_parents_by_gen t)) eqn:Hr1;
          simpl; rewrite Hbr;
          destruct (comb_rank cc <? comb_rank (best_parents_by_rank t)) eqn:Hr;
          eexists; (split; [reflexivity |]); (split; [| done]);
          unfold tracked; simpl; rewrite ?Hbr, ?Hbg;
          (split; [done || lia |]); (split; [done |]); split;
          try (eapply by_gen_winner_take; [done | done | lia]);
          try (apply by_gen_winner_skip; [done | lia]);
          try (eapply by_rank_winner_take; [done | done | lia]);
          try (apply by_rank_winner_skip; [done | lia]).
      * rewrite Hbr.
        destruct (comb_rank cc <? comb_rank (best_parents_by_rank t)) eqn:Hr;
          eexists; (split; [reflexivity |]); (split; [| done]);
          unfold tracked; simpl; rewrite ?Hbr, ?Hbg;
          (split; [done |]); (split; [done |]); split;
          try (apply by_gen_winner_skip; [done | lia]);
          try (eapply by_rank_winner_take; [done | done | lia]);
          try (apply by_rank_winner_skip; [done | lia]).
  - destruct Ht as (Hl & ? & ?). simpl. rewrite Hbr.
    eexists. split; [reflexivity |]. split; [| done].
    unfold tracked; simpl. split; [done |]. split; [done |].
    by apply winner_first.
Qed.


Lemma tracked_fresh : tracked fresh_trackers [].
Proof.
  unfold tracked; simpl. split; [| done].
  intros c Hin. by apply elem_of_nil in Hin.
Qed.

Lemma for_each_tracked l t l0 :
  tracked t l0 →
  ∃ t', for_each consider l t = Ok t' ∧ tracked t' (l0 ++ l) ∧
        parents t' = parents t.
Proof.
  revert t l0. induction l as [| c l IH]; intros t l0 Ht; simpl.
  - exists t. by rewrite app_nil_r.
  - destruct (consider_tracked t l0 c Ht) as (t1 & -> & Ht1 & Hp1). simpl.
    destruct (IH t1 (l0 ++ [c]) Ht1) as (t2 & -> & Ht2 & Hp2).
    exists t2. rewrite <- app_assoc in Ht2. split; [done |].
    split; [done | congruence].
Qed.

Lemma winner_in_gen l sel :
  by_gen_winner l sel → sel ∈ l ∧ survives sel = true.
Proof.
  intros (pre & post & -> & Hs & _). split; [| done].
  apply elem_of_app. right. apply elem_of_cons. by left.
Qed.

Lemma winner_in_rank l sel :
  by_rank_winner l sel → sel ∈ l ∧ survives sel = true.
Proof.
  intros (pre & post & -> & Hs & _). split; [| done].
  apply elem_of_app. right. apply elem_of_cons. by left.
Qed.

(** The first pass of a call: one pass over [combos] with fresh trackers
    and generation cap 2.  When some combination survives the filter, the
    pass returns normally; if the least surviving generation is 1 the
    selection is the by-generation winner, and otherwise it is the first
    survivor, in input order, whose rank is the least of all survivors. *)
Theorem select_pass_winner (OL_PARENT : string) (w1_parent : option string)
        (combos : list combination) :
  (∃ c, c ∈ combos ∧ survives c = true) →
  ∃ t, threshold_pass OL_PARENT w1_parent combos fresh_trackers = Ok t ∧
       (min_gen_is combos 1 → by_gen_winner combos (parents t)) ∧
       (¬ min_gen_is combos 1 → by_rank_winner combos (parents t)).
Proof.
  intros (c0 & Hin0 & Hs0).
  destruct (for_each_tracked combos fresh_trackers [] tracked_fresh)
    as (t & Hrun & Ht & _).
  simpl in Ht. unfold threshold_pass. rewrite Hrun. simpl.
  eexists. split; [reflexivity |].
  unfold tracked in Ht.
  destruct (best_gen t) as [g |] eqn:Hbg, (best_rank t) as [r |] eqn:Hbr;
    try done.
  2: { destruct Ht as (Hnone & _). rewrite (Hnone c0 Hin0) in Hs0. done. }
  destruct Ht as (-> & -> & Hgw & Hrw).
  pose proof (winner_in_gen _ _ Hgw) as [Hgin Hgs].
  pose proof (winner_in_rank _ _ Hrw) as [Hrin Hrs].
  pose proof (survives_nonempty _ Hgs) as Hgne.
  pose proof (survives_nonempty _ Hrs) as Hrne.
  assert (Hmin : ∀ c, c ∈ combos → survives c = true →
                 comb_gen (best_parents_by_gen t) ≤ comb_gen c).
  { destruct Hgw as (? & ? & ? & ? & Hm & _). exact Hm. }
  unfold analyse. rewrite Hbg. simpl.
  split.
  - intros [(c1 & Hin1 & Hs1 & Hg1) Hall].
    pose proof (Hmin c1 Hin1 Hs1). pose proof (Hall _ Hgin Hgs).
    assert (comb_gen (best_parents_by_gen t) = 1) as -> by lia.
    destruct (decide (Some 1 = Some 1)) as [_ |]; [| done].
    destruct (best_parents_by_gen t) as [| x bp] eqn:Hb; [done |].
    by destruct (decide (w1_parent = Some OL_PARENT)).
  - intros Hnot.
    assert (comb_gen (best_parents_by_gen t) ≠ 1) as Hne.
    { intros H1. apply Hnot. split.
      - exists (best_parents_by_gen t). done.
      - intros c Hin Hs. rewrite <- H1. by apply Hmin. }
    destruct (decide (Some (comb_gen (best_parents_by_gen t)) = Some 1))
      as [He |]; [congruence |].
    destruct (best_parents_by_rank t) as [| x bp] eqn:Hb; [done |].
    by destruct (decide (w1_parent = Some OL_PARENT)).
Qed.

(** The first pass of a call, when no combination survives the filter: the
    selection is the single synthetic candidate [('OL_PARENT', -1, 1)] when
    the nominal parent is the overlapping-unit sentinel, and is empty
    otherwise. *)
Theorem no_survivor_selection (OL_PARENT : string) (w1_parent : option string)
        (combos : list combination) :
  (∀ c, c ∈ combos → survives c = false) →
  ∃ t, threshold_pass OL_PARENT w1_parent combos fresh_trackers = Ok t ∧
       (w1_parent = Some OL_PARENT → parents t = [(Some "OL_PARENT", -1, 1)]) ∧
       (w1_parent ≠ Some OL_PARENT → parents t = []).
Proof.
  intros Hnone.
  destruct (for_each_tracked combos fresh_trackers [] tracked_fresh)
    as (t & Hrun & Ht & _).
  simpl in Ht. unfold threshold_pass. rewrite Hrun. simpl.
  eexists. split; [reflexivity |].
  unfold tracked in Ht.
  destruct (best_gen t) as [g |] eqn:Hbg, (best_rank t) as [r |] eqn:Hbr;
    try done.
  - destruct Ht as (_ & _ & Hgw & _).
    destruct (winner_in_gen _ _ Hgw) as [Hin Hs].
    rewrite (Hnone _ Hin) in Hs. done.
  - destruct Ht as (_ & _ & Hr). unfold analyse. rewrite Hbg, Hr. simpl.
    destruct (decide (None = Some 1)) as [He |]; [done |].
    split; intros Hp.
    + by rewrite decide_True.
    + by rewrite decide_False.
Qed.

Lemma select_pass_winner_witness :
  ∃ t, threshold_pass "OL_PARENT" (Some "a")
         [ [(Some "B", 3, 2)]; []; [(Some "C", 5, 1)]; [(Some "D", 4, 1)];
           [(Some "E", 1, 3)] ] fresh_trackers = Ok t ∧
       (min_gen_is [ [(Some "B", 3, 2)]; []; [(Some "C", 5, 1)];
                     [(Some "D", 4, 1)]; [(Some "E", 1, 3)] ] 1 →
        by_gen_winner [ [(Some "B", 3, 2)]; []; [(Some "C", 5, 1)];
                        [(Some "D", 4, 1)]; [(Some "E", 1, 3)] ] (parents t)) ∧
       (¬ min_gen_is [ [(Some "B", 3, 2)]; []; [(Some "C", 5, 1)];
                       [(Some "D", 4, 1)]; [(Some "E", 1, 3)] ] 1 →
        by_rank_winner [ [(Some "B", 3, 2)]; []; [(Some "C", 5, 1)];
                         [(Some "D", 4, 1)]; [(Some "E", 1, 3)] ] (parents t)).
Proof.
  apply (select_pass_winner "OL_PARENT" (Some "a")).
  exists [(Some "B", 3, 2)]. split; [constructor | reflexivity].
Defined.

Lemma no_survivor_selection_witness :
  ∃ t, threshold_pass "OL_PARENT" (Some "OL_PARENT")
         [ []; [(Some "E", 1, 3)] ] fresh_trackers = Ok t ∧
       (Some "OL_PARENT" = Some "OL_PARENT" →
        parents t = [(Some "OL_PARENT", -1, 1)]) ∧
       (Some "OL_PARENT" ≠ Some "OL_PARENT" → parents t = []).
Proof.
  apply (no_survivor_selection "OL_PARENT" (Some "OL_PARENT")).
  intros c Hin.
  apply elem_of_cons in Hin as [-> | Hin]; [reflexivity |].
  apply elem_of_cons in Hin as [-> | Hin]; [reflexivity |].
  by apply elem_of_nil in Hin.
Defined.

(** The pass on some concrete inputs. *)
Example pass_prefers_generation_one :
  parents <$> (match threshold_pass "OL_PARENT" (Some "a")
                 [ [(Some "B", 3, 2)]; []; [(Some "C", 5, 1)];
                   [(Some "D", 4, 1)]; [(Some "E", 1, 3)] ] fresh_trackers
               with Ok t => Some t | Raise _ => None end)
  = Some [(Some "D", 4, 1)].
Proof. reflexivity. Qed.

Example pass_falls_back_on_rank :
  parents <$> (match threshold_pass "OL_PARENT" (Some "a")
                 [ [(Some "B", 3, 2)]; [(Some "C", 2, 2); (Some "D", 1, 1)];
                   [(Some "F", 2, 2)] ] fresh_trackers
               with Ok t => Some t | Raise _ => None end)
  = Some [(Some "C", 2, 2); (Some "D", 1, 1)].
Proof. reflexivity. Qed.

(** [get_parents] for a single threshold is one pass with fresh trackers. *)
Lemma get_parents_single (OL_PARENT : string) (database : Type)
      (GC : database → string → string → provider)
      (w1 w1_reading : string) (w1_parent : option string) (vu : string)
      (conn_value : Z) (db_file : database) (combos : list combination) :
  GC db_file w1 vu w1_reading w1_parent conn_value = Some combos →
  get_parents OL_PARENT GC w1 w1_reading w1_parent vu [conn_value] db_file =
    (t <- threshold_pass OL_PARENT w1_parent combos fresh_trackers ;;
     Ok (Some {[ conn_value := Some (parents t) ]})).
Proof.
  intros Hc. unfold get_parents. simpl. rewrite Hc.
  destruct (threshold_pass _ _ _ _); simpl; [| done].
  by rewrite insert_empty.
Qed.

(** ** Tracker state across thresholds *)

(** C2 (the code departs from it): with thresholds [10; 1], a provider that
    answers [[("A", 5, 1)]] at 10 and nothing at 1 gets the selection of
    threshold 10 recorded for threshold 1 as well, while threshold 1
    evaluated alone, with fresh trackers, has an empty selection. *)
Theorem trackers_leak_across_thresholds :
  let GC : unit → string → string → provider :=
    λ _ _ _ _ _ conn, if conn =? 10 then Some [ [(Some "A", 5, 1)] ]
                      else Some [] in
  (∃ m, get_parents "OL_PARENT" GC "B" "b" (Some "a") "1/1" [10; 1] tt
          = Ok (Some m) ∧
        m !! 10 = Some (Some [(Some "A", 5, 1)]) ∧
        m !! 1 = Some (Some [(Some "A", 5, 1)])) ∧
  (∃ m, get_parents "OL_PARENT" GC "B" "b" (Some "a") "1/1" [1] tt
          = Ok (Some m) ∧
        m !! 1 = Some (Some [])).
Proof.
  split; eexists; (split; [reflexivity |]); by vm_compute.
Qed.

(** The general shape of the leak: the second threshold's pass starts from
    the trackers the first one left. *)
Lemma get_parents_second_pass (OL_PARENT : string) (database : Type)
      (GC : database → string → string → provider)
      (w1 w1_reading : string) (w1_parent : option string) (vu : string)
      (c1 c2 : Z) (db_file : database) (l1 l2 : list combination) :
  GC db_file w1 vu w1_reading w1_parent c1 = Some l1 →
  GC db_file w1 vu w1_reading w1_parent c2 = Some l2 →
  get_parents OL_PARENT GC w1 w1_reading w1_parent vu [c1; c2] db_file =
    (t1 <- threshold_pass OL_PARENT w1_parent l1 fresh_trackers ;;
     t2 <- threshold_pass OL_PARENT w1_parent l2 t1 ;;
     Ok (Some (<[c2 := Some (parents t2)]> {[ c1 := Some (parents t1) ]}))).
Proof.
  intros H1 H2. unfold get_parents. simpl. rewrite H1.
  destruct (threshold_pass _ _ l1 _) as [t1 |]; simpl; [| done].
  rewrite H2. destruct (threshold_pass _ _ l2 _) as [t2 |]; simpl; [| done].
  by rewrite insert_empty.
Qed.

(** C1 (the code departs from it): the trackers are set before the loop
    over the thresholds, so only the first pass of a call starts from fresh
    trackers.  With thresholds [10; 1] and a provider that answers
    [[("A", 5, 1)]] at 10 and [[("Z", 9, 2)]] at 1, the pass of threshold 1
    processes the single combination [("Z", 9, 2)]: its least surviving
    generation is 2, and its by-rank winner is [("Z", 9, 2)], which is what
    threshold 1 alone selects.  The call records [("A", 5, 1)] for
    threshold 1, a combination that is not in that pass's input. *)
Theorem later_pass_selects_outside_its_input :
  (∃ m, get_parents "OL_PARENT" Scenario.coh_loose_then_far
          "B" "b" (Some "a") "1/1" [10; 1] tt = Ok (Some m) ∧
        m !! 1 = Some (Some [(Some "A", 5, 1)])) ∧
  ¬ min_gen_is [ [(Some "Z", 9, 2)] ] 1 ∧
  by_rank_winner [ [(Some "Z", 9, 2)] ] [(Some "Z", 9, 2)] ∧
  ¬ by_rank_winner [ [(Some "Z", 9, 2)] ] [(Some "A", 5, 1)] ∧
  (∃ m, get_parents "OL_PARENT" Scenario.coh_loose_then_far
          "B" "b" (Some "a") "1/1" [1] tt = Ok (Some m) ∧
        m !! 1 = Some (Some [(Some "Z", 9, 2)])).
Proof.
  split; [eexists; split; [reflexivity | by vm_compute] |].
  split.
  { intros [(c & Hin & _ & Hg) _].
    apply elem_of_cons in Hin as [-> | Hin]; [done |].
    by apply elem_of_nil in Hin. }
  split.
  { exists [], []. repeat split; try done.
    - intros c Hin. by apply elem_of_nil in Hin.
    - intros c Hin. by apply elem_of_nil in Hin. }
  split.
  { intros (pre & post & Heq & _).
    destruct pre as [| x pre]; [done |].
    destruct pre; done. }
  eexists; split; [reflexivity | by vm_compute].
Qed.

(** C7 (the code departs from it): in the pass of threshold 1 below no
    combination survives the filter, yet the selection recorded for it is
    neither the synthetic candidate nor empty.  The trackers still hold
    [("A", 5, 1)] from the pass of threshold 10, and that is what is
    recorded, with the sentinel as nominal parent and without. *)
Theorem later_pass_without_survivor :
  (∀ c, c ∈ [ []; [(Some "E", 1, 3)] ] → survives c = false) ∧
  (∃ m, get_parents "OL_PARENT" Scenario.coh_loose_then_none
          "C" "b" (Some "OL_PARENT") "1/1" [10; 1] tt = Ok (Some m) ∧
        m !! 1 = Some (Some [(Some "A", 5, 1)])) ∧
  (∃ m, get_parents "OL_PARENT" Scenario.coh_loose_then_none
          "B" "b" (Some "a") "1/1" [10; 1] tt = Ok (Some m) ∧
        m !! 1 = Some (Some [(Some "A", 5, 1)])) ∧
  (∃ m, get_parents "OL_PARENT" Scenario.coh_loose_then_none
          "C" "b" (Some "OL_PARENT") "1/1" [1] tt = Ok (Some m) ∧
        m !! 1 = Some (Some [(Some "OL_PARENT", -1, 1)])) ∧
  (∃ m, get_parents "OL_PARENT" Scenario.coh_loose_then_none
          "B" "b" (Some "a") "1/1" [1] tt = Ok (Some m) ∧
        m !! 1 = Some (Some [])).
Proof.
  split.
  { intros c Hin.
    apply elem_of_cons in Hin as [-> | Hin]; [reflexivity |].
    apply elem_of_cons in Hin as [-> | Hin]; [reflexivity |].
    by apply elem_of_nil in Hin. }
  repeat split; eexists; (split; [reflexivity | by vm_compute]).
Qed.

Lemma tracked_analyse (OL_PARENT : string) (w1_parent : option string) t l :
  tracked t l → tracked (analyse OL_PARENT w1_parent t) l.
Proof. done. Qed.

(** The loop of [get_parents] always returns: the [max] calls never see an
    empty sequence.  It returns [None] exactly when the provider raises at
    one of the thresholds, and a map otherwise. *)
Lemma get_parents_loop_returns (OL_PARENT : string) (coh : provider)
      (w1_reading : string) (w1_parent : option string) (connectivity : list Z)
      (t : trackers) (l0 : list combination)
      (pm : gmap Z (option combination)) :
  tracked t l0 →
  ∃ r, get_parents_loop OL_PARENT coh w1_reading w1_parent connectivity t pm
         = Ok r ∧
       (r = None ↔ ∃ c, c ∈ connectivity ∧ coh w1_reading w1_parent c = None).
Proof.
  revert t l0 pm.
  induction connectivity as [| c rest IH]; intros t l0 pm Ht; simpl.
  - eexists. split; [reflexivity |]. split; [done |].
    intros (c & Hin & _). by apply elem_of_nil in Hin.
  - destruct (coh w1_reading w1_parent c) as [combos |] eqn:Hc.
    + unfold threshold_pass.
      destruct (for_each_tracked combos t l0 Ht) as (t' & -> & Ht' & _). simpl.
      destruct (IH (analyse OL_PARENT w1_parent t') _
                  (<[c := Some (parents (analyse OL_PARENT w1_parent t'))]> pm)
                  (tracked_analyse OL_PARENT w1_parent _ _ Ht'))
        as (r & Hr & Hiff).
      exists r. split; [done |]. rewrite Hiff. split.
      * intros (c' & Hin & Hc'). exists c'. split; [by right | done].
      * intros (c' & Hin & Hc').
        apply elem_of_cons in Hin as [-> | Hin]; [congruence |]. by exists c'.
    + exists None. split; [done |]. split; [| done].
      intros _. exists c. split; [by left | done].
Qed.

(** ** The orphan rule *)

(** C6: a row whose selection is empty or has only null ancestors.  For
    witness "A" the row is accepted and the graph is left as it was; for any
    other witness the row raises [ForestError] exactly when [perfect_only]
    is set, and otherwise the graph is left as it was (the node stays
    disconnected). *)
Theorem orphan_rule {database : Type} (self : TextualFlow.t database)
        (conn_value : Z) (G : DiGraph) (rank_mapping : gmap string string)
        (x : row) (p : combination) :
  TextualFlow.lookup_parents self (row_witness x) conn_value = Ok p →
  all_null p = true →
  let rm' := <[row_witness x := caption (row_witness x) (row_label x) p]>
               rank_mapping in
  (row_witness x = "A" →
   TextualFlow.draw_row self conn_value (G, rank_mapping) x = Ok (G, rm')) ∧
  (row_witness x ≠ "A" →
   (TextualFlow.draw_row self conn_value (G, rank_mapping) x = Raise ForestError
    ↔ TextualFlow.perfect_only self = true) ∧
   (TextualFlow.perfect_only self = false →
    TextualFlow.draw_row self conn_value (G, rank_mapping) x = Ok (G, rm'))).
Proof.
  intros Hl Hn rm'. unfold TextualFlow.draw_row. rewrite Hl. simpl.
  rewrite Hn. split.
  - intros HA. by rewrite decide_True.
  - intros HA. rewrite decide_False by done.
    destruct (TextualFlow.perfect_only self); split; done.
Qed.

Lemma orphan_rule_witness :
  let self := TextualFlow.Self {[ 3 := "out.svg" ]} [3] tt "1/1" true ""
                {[ "D" := Some {[ 3 := Some [(None, 0, 1)] ]} ]} in
  let rm' := <["D" := caption "D" "b" [(None, 0, 1)]]> ∅ in
  (row_witness ("D", "b", Some "A") = "A" →
   TextualFlow.draw_row self 3 (empty_graph, ∅) ("D", "b", Some "A")
     = Ok (empty_graph, rm')) ∧
  (row_witness ("D", "b", Some "A") ≠ "A" →
   (TextualFlow.draw_row self 3 (empty_graph, ∅) ("D", "b", Some "A")
      = Raise ForestError
    ↔ TextualFlow.perfect_only self = true) ∧
   (TextualFlow.perfect_only self = false →
    TextualFlow.draw_row self 3 (empty_graph, ∅) ("D", "b", Some "A")
      = Ok (empty_graph, rm'))).
Proof.
  intros self rm'.
  apply (orphan_rule self 3 empty_graph ∅ ("D", "b", Some "A") [(None, 0, 1)]).
  - reflexivity.
  - reflexivity.
Defined.

Lemma draw_row_forest_error {database : Type} (self : TextualFlow.t database)
      (conn_value : Z) st x :
  TextualFlow.draw_row self conn_value st x = Raise ForestError ↔
  TextualFlow.perfect_only self = true ∧ row_witness x ≠ "A" ∧
  ∃ p, TextualFlow.lookup_parents self (row_witness x) conn_value = Ok p ∧
       all_null p = true.
Proof.
  destruct st as [G rm]. unfold TextualFlow.draw_row.
  destruct (TextualFlow.lookup_parents self (row_witness x) conn_value)
    as [p | e] eqn:Hp; simpl.
  - destruct (all_null p) eqn:Hn.
    + destruct (decide (row_witness x = "A")) as [HA | HA].
      * split; [done |]. by intros (_ & ? & _).
      * destruct (TextualFlow.perfect_only self).
        -- split; [| done]. intros _. split; [done |]. split; [done |].
           by exists p.
        -- split; [done |]. by intros (? & _).
    + split; [done |]. intros (_ & _ & p' & Hp' & Hn'). congruence.
  - split.
    + intros He. unfold TextualFlow.lookup_parents in Hp.
      repeat (destruct (_ !! _) as [[?|]|] in Hp; try done); congruence.
    + by intros (_ & _ & p' & Hp' & _).
Qed.

(** At the level of the whole loop: when every row has a selection, the
    build raises [ForestError] exactly when [perfect_only] is set and some
    witness other than "A" has a selection that is empty or all null. *)
Lemma draw_rows_forest_error {database : Type} (self : TextualFlow.t database)
      (conn_value : Z) (data : list row) st :
  (∀ x, x ∈ data →
     ∃ p, TextualFlow.lookup_parents self (row_witness x) conn_value = Ok p) →
  (for_each (TextualFlow.draw_row self conn_value) data st = Raise ForestError ↔
   TextualFlow.perfect_only self = true ∧
   ∃ x p, x ∈ data ∧ row_witness x ≠ "A" ∧
     TextualFlow.lookup_parents self (row_witness x) conn_value = Ok p ∧
     all_null p = true).
Proof.
  revert st. induction data as [| x data IH]; intros st Hall.
  - split; [done |]. intros (_ & x & p & Hin & _). by apply elem_of_nil in Hin.
  - rewrite for_each_cons.
    destruct (TextualFlow.draw_row self conn_value st x) as [st1 | e] eqn:Hx;
      simpl.
    + rewrite IH by (intros y Hy; apply Hall; by right). split.
      * intros (Hp & y & p & Hin & Hrest). split; [done |].
        exists y, p. split; [by right | done].
      * intros (Hp & y & p & Hin & HA & Hl & Hn). split; [done |].
        apply elem_of_cons in Hin as [-> | Hin]; [| by exists y, p].
        assert (TextualFlow.draw_row self conn_value st x = Raise ForestError)
          as He by (apply draw_row_forest_error; eauto).
        congruence.
    + destruct (Hall x ltac:(by left)) as (p & Hp).
      assert (e = ForestError) as ->.
      { destruct st as [G rm]. unfold TextualFlow.draw_row in Hx.
        rewrite Hp in Hx. simpl in Hx.
        destruct (all_null p); [| done].
        destruct (decide (row_witness x = "A")); [done |].
        destruct (TextualFlow.perfect_only self); [| done]. by inversion Hx. }
      split; [| done]. intros _.
      apply draw_row_forest_error in Hx as (Hperf & HA & p' & Hp' & Hn).
      split; [done |]. exists x, p'. split; [by left | done].
Qed.

(** ** Provider failures *)

(** C4 (the code departs from it): the provider raises for witness B at the
    second threshold.  [get_parents] then returns [None], with no partial
    map, but the build of the unit does not treat B as having no parents:
    subscripting the [None] stored for B raises [TypeError], which ends the
    whole run. *)
Theorem provider_failure_aborts_build :
  get_parents "OL_PARENT" Scenario.coh_failing "B" "b" (Some "A") "1/1" [3; 5] tt
    = Ok None ∧
  TextualFlow.init "OL_PARENT" Scenario.coh_failing Scenario.rows_abc
    Scenario.no_file tt "1/1" [3; 5] false "" = Raise TypeError ∧
  textual_flow "OL_PARENT" Scenario.coh_failing Scenario.rows_abc
    ∅ tt ["1/1"; "1/2"] [3; 5] false "" = Raise TypeError.
Proof. repeat split; by vm_compute. Qed.

(** ** The entry point's arguments *)

(** The entry point never looks at its [perfect_only] and [suffix]. *)
Lemma textual_flow_ignores_flag_and_suffix (OL_PARENT : string)
      (database : Type) (GC : database → string → string → provider)
      (select_cbgm : database → string → list row)
      (files : gset string) (db_file : database) (variant_units : list string)
      (connectivity : list Z) (perfect_only : bool) (suffix : string) :
  textual_flow OL_PARENT GC select_cbgm files db_file variant_units
    connectivity perfect_only suffix =
  textual_flow OL_PARENT GC select_cbgm files db_file variant_units
    connectivity false "".
Proof.
  revert files. induction variant_units as [| vu rest IH]; intros files; simpl.
  - done.
  - destruct (TextualFlow.init _ _ _ _ _ _ _ _ _) as [arts |]; simpl; [| done].
    by rewrite IH.
Qed.

(** C5 (the code departs from it): called with [perfect_only=True] and suffix
    "_x" on a unit whose witness D has no parents, the entry point returns
    normally and writes "textual_flow_1_1_c3.svg"; the same unit built with
    the caller's flag and suffix raises [ForestError], and built with the
    suffix alone writes "textual_flow_1_1_c3_x.svg". *)
Theorem entry_point_drops_flag_and_suffix :
  returned written
    (textual_flow "OL_PARENT" Scenario.coh_nothing Scenario.rows_orphan
       ∅ tt ["1/1"] [3] true "_x") = Ok ["textual_flow_1_1_c3.svg"] ∧
  TextualFlow.init "OL_PARENT" Scenario.coh_nothing Scenario.rows_orphan
    Scenario.no_file tt "1/1" [3] true "_x" = Raise ForestError ∧
  returned written
    (TextualFlow.init "OL_PARENT" Scenario.coh_nothing Scenario.rows_orphan
       Scenario.no_file tt "1/1" [3] false "_x")
    = Ok ["textual_flow_1_1_c3_x.svg"].
Proof. repeat split; by vm_compute. Qed.

(** ** The graph that [draw_diagram] builds *)

Lemma add_node_dom n d G : dom (node (add_node n d G)) = {[ n ]} ∪ dom (node G).
Proof. unfold add_node; simpl. by rewrite dom_insert_L. Qed.

Lemma add_edge_dom u v G :
  dom (node (add_edge u v G)) = {[ u; v ]} ∪ dom (node G).
Proof. unfold add_edge; simpl. rewrite !dom_insert_L. set_solver. Qed.

Lemma add_edge_edges u v G :
  edges (add_edge u v G) = {[ (u, v) ]} ∪ edges G.
Proof. done. Qed.

Lemma add_nodes_from_dom l G :
  dom (node (add_nodes_from l G)) = list_to_set (Some <$> l.*1) ∪ dom (node G).
Proof.
  unfold add_nodes_from. revert G. induction l as [| nd l IH]; intros G; simpl.
  - set_solver.
  - rewrite IH, add_node_dom. set_solver.
Qed.

Lemma add_nodes_from_edges l G : edges (add_nodes_from l G) = edges G.
Proof.
  unfold add_nodes_from. revert G. induction l as [| nd l IH]; intros G; simpl.
  - done.
  - by rewrite IH.
Qed.

Lemma add_edges_dom (v : option string) (p : combination) G n :
  n ∈ dom (node (fold_left (λ G c, add_edge (cand_ancestor c) v G) p G)) ↔
  n ∈ dom (node G) ∨ ∃ c, c ∈ p ∧ (n = cand_ancestor c ∨ n = v).
Proof.
  revert G. induction p as [| c p IH]; intros G; simpl.
  - split; [by left |]. intros [H | (c & Hin & _)]; [done |].
    by apply elem_of_nil in Hin.
  - rewrite IH, add_edge_dom. split.
    + intros [H | (c' & Hin & Hc')].
      * apply elem_of_union in H as [H | H]; [| by left].
        right. exists c. split; [by left |]. set_solver.
      * right. exists c'. split; [by right | done].
    + intros [H | (c' & Hin & Hc')].
      * left. set_solver.
      * apply elem_of_cons in Hin as [-> | Hin].
        -- left. set_solver.
        -- right. by exists c'.
Qed.

Lemma add_edges_edges (v : option string) (p : combination) G e :
  e ∈ edges (fold_left (λ G c, add_edge (cand_ancestor c) v G) p G) ↔
  e ∈ edges G ∨ ∃ c, c ∈ p ∧ e = (cand_ancestor c, v).
Proof.
  revert G. induction p as [| c p IH]; intros G; simpl.
  - split; [by left |]. intros [H | (c & Hin & _)]; [done |].
    by apply elem_of_nil in Hin.
  - rewrite IH, add_edge_edges. split.
    + intros [H | (c' & Hin & Hc')].
      * apply elem_of_union in H as [H | H]; [| by left].
        right. exists c. split; [by left |]. set_solver.
      * right. exists c'. split; [by right | done].
    + intros [H | (c' & Hin & Hc')].
      * left. set_solver.
      * apply elem_of_cons in Hin as [-> | Hin].
        -- left. set_solver.
        -- right. by exists c'.
Qed.

(** What one row does to the graph and to [rank_mapping] when it does not
    raise. *)
Lemma draw_row_ok {database : Type} (self : TextualFlow.t database)
      (conn_value : Z) G0 rm0 x G rm :
  TextualFlow.draw_row self conn_value (G0, rm0) x = Ok (G, rm) →
  ∃ p, TextualFlow.lookup_parents self (row_witness x) conn_value = Ok p ∧
       rm = <[row_witness x := caption (row_witness x) (row_label x) p]> rm0 ∧
       G = if all_null p then G0
           else fold_left (λ G c, add_edge (cand_ancestor c)
                                    (Some (row_witness x)) G) p G0.
Proof.
  unfold TextualFlow.draw_row.
  destruct (TextualFlow.lookup_parents self (row_witness x) conn_value)
    as [p |]; simpl; [| done].
  intros H. exists p. split; [done |].
  destruct (all_null p).
  - destruct (decide (row_witness x = "A")).
    + by inversion H.
    + destruct (TextualFlow.perfect_only self); [done | by inversion H].
  - by inversion H.
Qed.

(** The rows [data], as [draw_diagram] walks them, add to the graph exactly
    the edges (and their end points) of the selections that are not all
    null. *)
Lemma draw_rows_graph {database : Type} (self : TextualFlow.t database)
      (conn_value : Z) (data : list row) G0 rm0 G rm :
  for_each (TextualFlow.draw_row self conn_value) data (G0, rm0) = Ok (G, rm) →
  (∀ x, x ∈ data →
     ∃ p, TextualFlow.lookup_parents self (row_witness x) conn_value = Ok p) ∧
  (∀ n, n ∈ dom (node G) ↔
        n ∈ dom (node G0) ∨
        ∃ x p c, x ∈ data ∧
          TextualFlow.lookup_parents self (row_witness x) conn_value = Ok p ∧
          all_null p = false ∧ c ∈ p ∧
          (n = cand_ancestor c ∨ n = Some (row_witness x))) ∧
  (∀ e, e ∈ edges G ↔
        e ∈ edges G0 ∨
        ∃ x p c, x ∈ data ∧
          TextualFlow.lookup_parents self (row_witness x) conn_value = Ok p ∧
          all_null p = false ∧ c ∈ p ∧
          e = (cand_ancestor c, Some (row_witness x))).
Proof.
  revert G0 rm0. induction data as [| x data IH]; intros G0 rm0 Hrun.
  - inversion Hrun; subst. split; [| split].
    + intros x Hin. by apply elem_of_nil in Hin.
    + intros n. split; [by left |].
      intros [H' | (x & ? & ? & Hin & _)]; [done | by apply elem_of_nil in Hin].
    + intros e. split; [by left |].
      intros [H' | (x & ? & ? & Hin & _)]; [done | by apply elem_of_nil in Hin].
  - rewrite for_each_cons in Hrun.
    destruct (TextualFlow.draw_row self conn_value (G0, rm0) x)
      as [[G1 rm1] |] eqn:Hrow; [| done].
    destruct (IH _ _ Hrun) as (Hlk & Hdom & Hedg).
    destruct (draw_row_ok _ _ _ _ _ _ _ Hrow) as (p & Hp & _ & HG1).
    split; [| split].
    + intros x' Hin. apply elem_of_cons in Hin as [-> | Hin]; [by exists p |].
      by apply Hlk.
    + intros n. rewrite Hdom. split.
      * intros [H | (x' & p' & c & Hin & Hrest')].
        -- destruct (all_null p) eqn:Hnull; subst G1; [by left |].
           apply add_edges_dom in H as [H | (c & Hin & Hc)]; [by left |].
           right. exists x, p, c. split; [by left | done].
        -- right. exists x', p', c. split; [by right | done].
      * intros [H | (x' & p' & c & Hin & Hp' & Hnull & Hc & Hn)].
        -- left. destruct (all_null p); subst G1; [done |].
           apply add_edges_dom. by left.
        -- apply elem_of_cons in Hin as [-> | Hin].
           ++ left. rewrite Hp in Hp'. inversion Hp'; subst p'.
              rewrite Hnull in HG1. subst G1.
              apply add_edges_dom. right. by exists c.
           ++ right. by exists x', p', c.
    + intros e. rewrite Hedg. split.
      * intros [H | (x' & p' & c & Hin & Hrest')].
        -- destruct (all_null p) eqn:Hnull; subst G1; [by left |].
           apply add_edges_edges in H as [H | (c & Hin & Hc)]; [by left |].
           right. exists x, p, c. split; [by left | done].
        -- right. exists x', p', c. split; [by right | done].
      * intros [H | (x' & p' & c & Hin & Hp' & Hnull & Hc & Hn)].
        -- left. destruct (all_null p); subst G1; [done |].
           apply add_edges_edges. by left.
        -- apply elem_of_cons in Hin as [-> | Hin].
           ++ left. rewrite Hp in Hp'. inversion Hp'; subst p'.
              rewrite Hnull in HG1. subst G1.
              apply add_edges_edges. right. by exists c.
           ++ right. by exists x', p', c.
Qed.

Lemma all_null_spec (p : combination) :
  all_null p = true ↔ ∀ c, c ∈ p → cand_ancestor c = None.
Proof.
  unfold all_null. induction p as [| c p IH]; simpl.
  - split; [| done]. intros _ c Hin. by apply elem_of_nil in Hin.
  - rewrite andb_true_iff, IH, bool_decide_eq_true. split.
    + intros [Hc Hp] c' Hin.
      apply elem_of_cons in Hin as [-> | Hin]; [done | by apply Hp].
    + intros H. split; [apply H; by left |].
      intros c' Hin. apply H. by right.
Qed.

Lemma all_null_false (p : combination) c a :
  c ∈ p → cand_ancestor c = Some a → all_null p = false.
Proof.
  intros Hin Ha. destruct (all_null p) eqn:Hn; [| done].
  rewrite (proj1 (all_null_spec p) Hn c Hin) in Ha. done.
Qed.

Lemma styled_id x w : styled x = Ok w → w.1 = row_witness x.
Proof.
  unfold styled. destruct (row_label x) as [| ch ?]; [done |].
  destruct (darken (colour_of ch) darken_default_by) as [col |]; [| done].
  intros H. apply (f_equal (returned fst)) in H. by inversion H.
Qed.

Lemma styled_all_ids data witnesses :
  styled_all data = Ok witnesses → witnesses.*1 = row_witness <$> data.
Proof.
  revert witnesses. induction data as [| x data IH]; intros witnesses H.
  - by inversion H.
  - change (styled_all (x :: data))
      with (w <- styled x ;; ws <- styled_all data ;; Ok (w :: ws)) in H.
    destruct (styled x) as [w |] eqn:Hw; [| done].
    destruct (styled_all data) as [ws |]; [| done].
    inversion H; subst. rewrite fmap_cons, (IH ws eq_refl).
    by rewrite (styled_id _ _ Hw).
Qed.

(** C8, as the code has it: in a built graph, before relabelling, every
    witness of the unit is a node; a non-null id is a node exactly when it
    is a witness or the ancestor id of a candidate in some witness's
    selection; an edge from a non-null id [a] to [w] exists exactly when [w]
    is a witness whose selection has a candidate with ancestor [a] (the
    synthetic OL_PARENT candidate included); and a witness whose selection
    is empty or all null has no incoming edge. *)
Theorem flow_graph_nodes_and_edges {database : Type}
        (self : TextualFlow.t database) (conn_value : Z) (data : list row)
        (witnesses : list (string * gmap string string))
        (f : string) (G : DiGraph) (rm : gmap string string) :
  witnesses.*1 = row_witness <$> data →
  TextualFlow.draw_diagram self conn_value data witnesses = Ok (f, G, rm) →
  (∀ w, w ∈ row_witness <$> data → Some w ∈ dom (node G)) ∧
  (∀ a, Some a ∈ dom (node G) ↔
        a ∈ row_witness <$> data ∨
        ∃ x p c, x ∈ data ∧
          TextualFlow.lookup_parents self (row_witness x) conn_value = Ok p ∧
          c ∈ p ∧ cand_ancestor c = Some a) ∧
  (∀ a w, (Some a, w) ∈ edges G ↔
          ∃ x p c, x ∈ data ∧ w = Some (row_witness x) ∧
            TextualFlow.lookup_parents self (row_witness x) conn_value = Ok p ∧
            c ∈ p ∧ cand_ancestor c = Some a) ∧
  (∀ x p, x ∈ data →
          TextualFlow.lookup_parents self (row_witness x) conn_value = Ok p →
          all_null p = true →
          ∀ u, (u, Some (row_witness x)) ∉ edges G).
Proof.
  intros Hids. unfold TextualFlow.draw_diagram.
  destruct (for_each _ data _) as [[G' rm'] |] eqn:Hrun; simpl; [| done].
  destruct (TextualFlow.output_files self !! conn_value); [| done].
  intros H. inversion H; subst. clear H.
  destruct (draw_rows_graph _ _ _ _ _ _ _ Hrun) as (Hlk & Hdom & Hedg).
  assert (Hbase : ∀ a, Some a ∈ dom (node (add_nodes_from witnesses empty_graph))
                       ↔ a ∈ row_witness <$> data).
  { intros a. rewrite add_nodes_from_dom, Hids. simpl. rewrite dom_empty_L.
    rewrite elem_of_union, elem_of_list_to_set, list_elem_of_fmap.
    split.
    - intros [(y & Hy & Hin) | Hno]; [| by apply elem_of_empty in Hno].
      by inversion Hy; subst.
    - intros Hin. left. by exists a. }
  assert (Hnodes : ∀ a, Some a ∈ dom (node G) ↔
        a ∈ row_witness <$> data ∨
        ∃ x p c, x ∈ data ∧
          TextualFlow.lookup_parents self (row_witness x) conn_value = Ok p ∧
          c ∈ p ∧ cand_ancestor c = Some a).
  { intros a. rewrite Hdom, Hbase. split.
    - intros [Hin | (x & p & c & Hin & Hp & Hn & Hc & [Ha | Ha])].
      + by left.
      + right. by exists x, p, c.
      + left. inversion Ha; subst. apply list_elem_of_fmap. by exists x.
    - intros [Hin | (x & p & c & Hin & Hp & Hc & Ha)]; [by left |].
      right. exists x, p, c. repeat split; try done.
      + by eapply all_null_false.
      + by left. }
  split; [| split; [exact Hnodes | split]].
  - intros w Hw. apply Hnodes. by left.
  - intros a w. rewrite Hedg, add_nodes_from_edges. simpl. split.
    + intros [Hno | (x & p & c & Hin & Hp & Hn & Hc & He)];
        [by apply elem_of_empty in Hno |].
      inversion He; subst. by exists x, p, c.
    + intros (x & p & c & Hin & -> & Hp & Hc & Ha). right.
      exists x, p, c. repeat split; try done.
      * by eapply all_null_false.
      * by rewrite Ha.
  - intros x p Hin Hp Hn u Hu. apply Hedg in Hu.
    rewrite add_nodes_from_edges in Hu. simpl in Hu.
    destruct Hu as [Hno | (x' & p' & c & Hin' & Hp' & Hn' & Hc & He)];
      [by apply elem_of_empty in Hno |].
    inversion He as [[Hu Hw]]. rewrite <- Hw, Hp in Hp'.
    inversion Hp'; subst p'. congruence.
Qed.

Lemma flow_graph_nodes_and_edges_witness :
  let self := TextualFlow.Self {[ 3 := "textual_flow_1_1_c3.svg" ]} [3] tt "1/1"
                false ""
                (<["C" := Some {[ 3 := Some [synthetic_ol_parent] ]}]>
                   {[ "A" := Some {[ 3 := Some [] ]} ]}) in
  let data := Scenario.rows_overlap tt "1/1" in
  let witnesses : list (string * gmap string string) := [("A", ∅); ("C", ∅)] in
  let G := add_edge (Some "OL_PARENT") (Some "C")
             (add_nodes_from witnesses empty_graph) in
  witnesses.*1 = row_witness <$> data ∧
  (∀ a, Some a ∈ dom (node G) ↔
        a ∈ row_witness <$> data ∨
        ∃ x p c, x ∈ data ∧
          TextualFlow.lookup_parents self (row_witness x) 3 = Ok p ∧
          c ∈ p ∧ cand_ancestor c = Some a).
Proof.
  intros self data witnesses G. split; [reflexivity |].
  apply (flow_graph_nodes_and_edges self 3 data witnesses
           "textual_flow_1_1_c3.svg" G
           (<["C" := "C/-1 (b)"]> {[ "A" := "A (a)" ]})).
  - reflexivity.
  - vm_compute. reflexivity.
Defined.

(** C8 as stated fails: C sits at the top of an overlapping unit and nothing
    explains its reading, so its selection is the synthetic candidate; the
    graph built for the unit has the extra node "OL_PARENT", which is no
    witness, and the edge from it to C. *)
Lemma overlap_parent_is_drawn :
  ∃ f G rm,
    TextualFlow.init "OL_PARENT" Scenario.coh_nothing Scenario.rows_overlap
      Scenario.no_file tt "1/1" [3] false "" = Ok [(f, G, rm)] ∧
    get_parents "OL_PARENT" Scenario.coh_nothing "C" "b" (Some "OL_PARENT")
      "1/1" [3] tt = Ok (Some {[ 3 := Some [(Some "OL_PARENT", -1, 1)] ]}) ∧
    dom (node G) = {[ Some "A"; Some "C"; Some "OL_PARENT" ]} ∧
    dom (node G) ≠
      list_to_set (Some <$> (row_witness <$> Scenario.rows_overlap tt "1/1")) ∧
    edges G = {[ (Some "OL_PARENT", Some "C") ]}.
Proof.
  eexists _, _, _. split; [vm_compute; reflexivity |].
  split; [vm_compute; reflexivity |].
  split; [compute_done |]. split; compute_done.
Qed.

(** ** Captions *)

(** After the rows [data], [rank_mapping] holds, for each witness of a unit
    whose witness ids are distinct, the caption of its own row. *)
Lemma draw_rows_captions {database : Type} (self : TextualFlow.t database)
      (conn_value : Z) (data : list row) G0 rm0 G rm :
  for_each (TextualFlow.draw_row self conn_value) data (G0, rm0) = Ok (G, rm) →
  (∀ w, w ∉ row_witness <$> data → rm !! w = rm0 !! w) ∧
  (NoDup (row_witness <$> data) →
   ∀ x, x ∈ data →
     ∃ p, TextualFlow.lookup_parents self (row_witness x) conn_value = Ok p ∧
          rm !! row_witness x
            = Some (caption (row_witness x) (row_label x) p)).
Proof.
  revert G0 rm0. induction data as [| x data IH]; intros G0 rm0 Hrun.
  - inversion Hrun; subst. split; [done |].
    intros _ x Hin. by apply elem_of_nil in Hin.
  - rewrite for_each_cons in Hrun.
    destruct (TextualFlow.draw_row self conn_value (G0, rm0) x)
      as [[G1 rm1] |] eqn:Hrow; [| done].
    destruct (IH _ _ Hrun) as (Hother & Hown).
    destruct (draw_row_ok _ _ _ _ _ _ _ Hrow) as (p & Hp & Hrm1 & _).
    rewrite fmap_cons. split.
    + intros w Hw. apply not_elem_of_cons in Hw as [Hne Hw].
      rewrite (Hother w Hw), Hrm1. by rewrite lookup_insert_ne.
    + intros Hnd x' Hin. apply NoDup_cons in Hnd as [Hfresh Hnd].
      apply elem_of_cons in Hin as [-> | Hin].
      * exists p. split; [done |].
        rewrite (Hother _ Hfresh), Hrm1. by rewrite lookup_insert_eq.
      * by apply Hown.
Qed.

(** C3, as the code has it: in a built graph of a unit with distinct witness
    ids, the caption of a witness is decided by the number of candidates in
    its selection and by their rank (the second component), not their
    generation: no candidate, or one candidate of rank 1, gives
    "id (reading)"; one candidate of any other rank gives
    "id/rank (reading)"; several candidates give
    "id/[p1.rank1, p2.rank2, ...] (reading)". *)
Theorem caption_by_rank {database : Type}
        (self : TextualFlow.t database) (conn_value : Z) (data : list row)
        (witnesses : list (string * gmap string string))
        (f : string) (G : DiGraph) (rm : gmap string string) (x : row) :
  TextualFlow.draw_diagram self conn_value data witnesses = Ok (f, G, rm) →
  NoDup (row_witness <$> data) →
  x ∈ data →
  let w1 := row_witness x in
  let plain := w1 +:+ " (" +:+ row_label x +:+ ")" in
  ∃ p cap,
    TextualFlow.lookup_parents self w1 conn_value = Ok p ∧
    rm !! w1 = Some cap ∧
    (p = [] → cap = plain) ∧
    (∀ c, p = [c] → cand_rank c = 1 → cap = plain) ∧
    (∀ c, p = [c] → cand_rank c ≠ 1 →
          cap = w1 +:+ "/" +:+ str_int (cand_rank c) +:+
                " (" +:+ row_label x +:+ ")") ∧
    ((1 < length p)%nat →
     cap = w1 +:+ "/[" +:+
           join ", " (map (λ c, str_opt (cand_ancestor c) +:+ "." +:+
                                str_int (cand_rank c)) p) +:+
           "] (" +:+ row_label x +:+ ")").
Proof.
  unfold TextualFlow.draw_diagram.
  destruct (for_each _ data _) as [[G' rm'] |] eqn:Hrun; simpl; [| done].
  destruct (TextualFlow.output_files self !! conn_value); [| done].
  intros H Hnd Hin. inversion H; subst. clear H.
  destruct (draw_rows_captions _ _ _ _ _ _ _ Hrun) as (_ & Hown).
  destruct (Hown Hnd x Hin) as (p & Hp & Hcap).
  exists p, (caption (row_witness x) (row_label x) p).
  split; [done |]. split; [done |].
  split; [by intros -> |]. split; [| split].
  - intros c -> Hr. unfold caption. by rewrite Hr.
  - intros c -> Hr. unfold caption.
    destruct (cand_rank c =? 1) eqn:He; [lia | done].
  - intros Hlen. destruct p as [| c1 [| c2 p]]; simpl in Hlen; [lia | lia |].
    done.
Qed.

Lemma caption_by_rank_witness :
  let self := TextualFlow.Self {[ 3 := "textual_flow_1_1_c3.svg" ]} [3] tt "1/1"
                false ""
                (<["C" := Some {[ 3 := Some [(Some "A", 2, 1)] ]}]>
                   {[ "A" := Some {[ 3 := Some [] ]} ]}) in
  let data : list row := [ ("A", "a", None); ("C", "a", Some "A") ] in
  let G := add_edge (Some "A") (Some "C")
             (add_nodes_from [("A", ∅); ("C", ∅)] empty_graph) in
  let rm : gmap string string := <["C" := "C/2 (a)"]> {[ "A" := "A (a)" ]} in
  ∃ p cap,
    TextualFlow.lookup_parents self "C" 3 = Ok p ∧
    rm !! "C" = Some cap ∧
    (p = [] → cap = "C (a)") ∧
    (∀ c, p = [c] → cand_rank c = 1 → cap = "C (a)") ∧
    (∀ c, p = [c] → cand_rank c ≠ 1 →
          cap = "C" +:+ "/" +:+ str_int (cand_rank c) +:+ " (" +:+ "a" +:+ ")") ∧
    ((1 < length p)%nat →
     cap = "C" +:+ "/[" +:+
           join ", " (map (λ c, str_opt (cand_ancestor c) +:+ "." +:+
                                str_int (cand_rank c)) p) +:+
           "] (" +:+ "a" +:+ ")").
Proof.
  intros self data G rm.
  apply (caption_by_rank self 3 data [("A", ∅); ("C", ∅)]
           "textual_flow_1_1_c3.svg" G rm ("C", "a", Some "A")).
  - vm_compute. reflexivity.
  - repeat constructor; set_solver.
  - right. left.
Defined.

(** C3 as stated fails on the spec's own example: the selection of C is the
    single candidate [("A", 2, 1)], of generation 1, and the caption is
    "C/2 (a)", showing the rank, where the claim has "C (a)".  A single
    candidate of generation 2 and rank 1 is captioned "B (b)", and several
    candidates are listed with their ranks. *)
Lemma caption_shows_rank_not_generation :
  ∃ f G rm,
    TextualFlow.init "OL_PARENT" Scenario.coh_abc Scenario.rows_abc
      Scenario.no_file tt "1/1" [3] false "" = Ok [(f, G, rm)] ∧
    get_parents "OL_PARENT" Scenario.coh_abc "C" "a" (Some "A") "1/1" [3] tt
      = Ok (Some {[ 3 := Some [(Some "A", 2, 1)] ]}) ∧
    cand_gen (Some "A", 2, 1) = 1 ∧
    rm !! "C" = Some "C/2 (a)" ∧
    "C/2 (a)" ≠ "C (a)" ∧
    caption "B" "b" [(Some "A", 1, 2)] = "B (b)" ∧
    "B (b)" ≠ "B/2 (b)" ∧
    caption "B" "b" [(Some "A", 3, 1); (Some "C", 4, 2)] = "B/[A.3, C.4] (b)".
Proof.
  eexists _, _, _. split; [vm_compute; reflexivity |].
  split; [vm_compute; reflexivity |].
  repeat split; try done; by vm_compute.
Qed.

(** ** The scan of the output files *)

Section Skip.

Variable exists_ : string → bool.
Variables variant_unit suffix : string.

Lemma scan_outputs_connectivity connectivity acc :
  (TextualFlow.scan_outputs exists_ variant_unit suffix connectivity acc).2
  = acc.2 ++ filter (artifact_absent exists_ variant_unit suffix) connectivity.
Proof.
  revert acc. induction connectivity as [| c rest IH]; intros acc; simpl.
  - by rewrite app_nil_r.
  - destruct (exists_ (output_file_name variant_unit c suffix)) eqn:He.
    + rewrite IH, filter_cons_False; [done |].
      unfold artifact_absent. congruence.
    + rewrite IH, filter_cons_True by done. simpl. by rewrite <- app_assoc.
Qed.

Lemma scan_outputs_files connectivity acc c :
  (TextualFlow.scan_outputs exists_ variant_unit suffix connectivity acc).1 !! c
  = if decide (c ∈ filter (artifact_absent exists_ variant_unit suffix)
                          connectivity)
    then Some (output_file_name variant_unit c suffix)
    else acc.1 !! c.
Proof.
  revert acc. induction connectivity as [| c0 rest IH]; intros acc.
  - destruct (decide (c ∈ filter (artifact_absent exists_ variant_unit suffix)
                                 [])) as [Hin | _]; [| done].
    by apply elem_of_nil in Hin.
  - simpl TextualFlow.scan_outputs.
    destruct (exists_ (output_file_name variant_unit c0 suffix)) eqn:He.
    + rewrite IH, filter_cons_False; [done |].
      unfold artifact_absent. congruence.
    + rewrite IH, filter_cons_True by done.
      set (kept := filter (artifact_absent exists_ variant_unit suffix) rest).
      destruct (decide (c ∈ kept)) as [Hin | Hin];
        destruct (decide (c ∈ c0 :: kept)) as [Hin' | Hin']; try done.
      * exfalso. apply Hin'. by right.
      * apply elem_of_cons in Hin' as [-> | Hin']; [| done].
        simpl. by rewrite lookup_insert_eq.
      * simpl. rewrite lookup_insert_ne; [done |].
        intros ->. apply Hin'. by left.
Qed.

End Skip.

Lemma get_parents_loop_ext (OL_PARENT : string) (coh coh' : provider)
      (w1_reading : string) (w1_parent : option string) (connectivity : list Z)
      (t : trackers) (pm : gmap Z (option combination)) :
  (∀ c, c ∈ connectivity →
        coh w1_reading w1_parent c = coh' w1_reading w1_parent c) →
  get_parents_loop OL_PARENT coh w1_reading w1_parent connectivity t pm =
  get_parents_loop OL_PARENT coh' w1_reading w1_parent connectivity t pm.
Proof.
  revert t pm. induction connectivity as [| c rest IH]; intros t pm Hagree.
  - done.
  - simpl. rewrite <- (Hagree c) by (by left).
    destruct (coh w1_reading w1_parent c) as [combos |]; [| done].
    destruct (threshold_pass OL_PARENT w1_parent combos t) as [t' |]; [| done].
    simpl. apply IH. intros c' Hin. apply Hagree. by right.
Qed.

Section SkipRun.

Context {database : Type}.
Variable OL_PARENT : string.
Variable GC : database → string → string → provider.

Lemma resolve_row_fields (self self' : TextualFlow.t database) x :
  TextualFlow.resolve_row OL_PARENT GC self x = Ok self' →
  TextualFlow.output_files self' = TextualFlow.output_files self ∧
  TextualFlow.connectivity self' = TextualFlow.connectivity self ∧
  TextualFlow.db_file self' = TextualFlow.db_file self ∧
  TextualFlow.variant_unit self' = TextualFlow.variant_unit self.
Proof.
  unfold TextualFlow.resolve_row. destruct (get_parents _ _ _ _ _ _ _ _); [| done].
  simpl. intros H. by inversion H.
Qed.

Lemma resolve_rows_fields data (self self' : TextualFlow.t database) :
  for_each (TextualFlow.resolve_row OL_PARENT GC) data self = Ok self' →
  TextualFlow.output_files self' = TextualFlow.output_files self ∧
  TextualFlow.connectivity self' = TextualFlow.connectivity self.
Proof.
  revert self. induction data as [| x data IH]; intros self Hrun.
  - by inversion Hrun.
  - rewrite for_each_cons in Hrun.
    destruct (TextualFlow.resolve_row OL_PARENT GC self x) as [s1 |] eqn:Hx;
      [| done].
    destruct (resolve_row_fields _ _ _ Hx) as (Ho & Hc & _).
    destruct (IH _ Hrun) as (Ho' & Hc'). split; congruence.
Qed.

Lemma draw_all_written (self : TextualFlow.t database) (name : Z → string)
      conns data witnesses arts :
  (∀ c, c ∈ conns → TextualFlow.output_files self !! c = Some (name c)) →
  TextualFlow.draw_all self conns data witnesses = Ok arts →
  written arts = name <$> conns.
Proof.
  revert arts. induction conns as [| c rest IH]; intros arts Hfiles Hrun.
  - by inversion Hrun.
  - simpl in Hrun.
    destruct (TextualFlow.draw_diagram self c data witnesses)
      as [[[f G] rm] |] eqn:Hd; [| done].
    simpl in Hrun.
    destruct (TextualFlow.draw_all self rest data witnesses) as [others |]
      eqn:Ho; [| done].
    simpl in Hrun. inversion Hrun; subst.
    change (written ((f, G, rm) :: others)) with (f :: written others).
    rewrite fmap_cons. f_equal.
    + unfold TextualFlow.draw_diagram in Hd.
      destruct (for_each _ data _) as [st |]; [| done]. simpl in Hd.
      rewrite (Hfiles c) in Hd by (by left). by inversion Hd.
    + apply IH; [| done]. intros c' Hin. apply Hfiles. by right.
Qed.

End SkipRun.

(** * Further properties of the module *)

(** ** [get_parents] over several thresholds *)

Lemma for_each_app {S X} (body : S → X → result S) l1 l2 st :
  for_each body (l1 ++ l2) st =
  (st' <- for_each body l1 st ;; for_each body l2 st').
Proof.
  revert st. induction l1 as [| x l1 IH]; intros st; simpl.
  - done.
  - destruct (body st x); simpl; [apply IH | done].
Qed.

(** [consider] neither reads nor writes [parents]. *)
Lemma consider_set_parents p t c :
  consider (set_parents p t) c = returned (set_parents p) (consider t c).
Proof.
  destruct c as [| x c]; [done |]. unfold consider.
  destruct (max_of (map cand_rank (x :: c))) as [rank |]; [| done].
  destruct (max_of (map cand_gen (x :: c))) as [gen |]; [| done].
  simpl. destruct (gen >? max_acceptable_gen); [done |].
  destruct (best_gen t) as [bg |] eqn:Hbg; simpl.
  - destruct (gen <? bg); simpl.
    + destruct (best_rank t) as [br |]; [destruct (rank <? br) |]; done.
    + destruct (gen =? bg); simpl.
      * destruct (max_of (map cand_rank (best_parents_by_gen t))) as [r |];
          [| done].
        simpl. destruct (rank <? r); simpl;
          destruct (best_rank t) as [br |]; try destruct (rank <? br); done.
      * destruct (best_rank t) as [br |]; [destruct (rank <? br) |]; done.
  - destruct (best_rank t) as [br |]; [destruct (rank <? br) |]; done.
Qed.

Lemma for_each_consider_set_parents p l t :
  for_each consider l (set_parents p t) =
  returned (set_parents p) (for_each consider l t).
Proof.
  revert t. induction l as [| c l IH]; intros t; [done |].
  rewrite !for_each_cons, consider_set_parents.
  destruct (consider t c) as [t1 |]; simpl; [apply IH | done].
Qed.

Lemma analyse_set_parents (OL_PARENT : string) w1_parent p t :
  analyse OL_PARENT w1_parent (set_parents p t) = analyse OL_PARENT w1_parent t.
Proof. done. Qed.

Lemma analyse_is_set_parents (OL_PARENT : string) w1_parent t :
  analyse OL_PARENT w1_parent t =
  set_parents (parents (analyse OL_PARENT w1_parent t)) t.
Proof. done. Qed.

(** The map that [get_parents_loop] returns has a selection for every
    threshold walked and is [parent_maps] elsewhere. *)
Lemma get_parents_loop_keys (OL_PARENT : string) (coh : provider)
      (w1_reading : string) (w1_parent : option string) (connectivity : list Z)
      (t : trackers) (pm m : gmap Z (option combination)) :
  get_parents_loop OL_PARENT coh w1_reading w1_parent connectivity t pm
    = Ok (Some m) →
  (∀ c, c ∈ connectivity → ∃ sel, m !! c = Some (Some sel)) ∧
  (∀ c, c ∉ connectivity → m !! c = pm !! c).
Proof.
  revert t pm. induction connectivity as [| c0 rest IH]; intros t pm Hrun.
  - inversion Hrun; subst. split; [| done].
    intros c Hin. by apply elem_of_nil in Hin.
  - simpl in Hrun.
    destruct (coh w1_reading w1_parent c0) as [combos |]; [| done].
    destruct (threshold_pass OL_PARENT w1_parent combos t) as [t' |]; [| done].
    simpl in Hrun. destruct (IH _ _ Hrun) as (Hin & Hout). split.
    + intros c Hc. destruct (decide (c ∈ rest)) as [Hr | Hr]; [by apply Hin |].
      apply elem_of_cons in Hc as [-> | Hc]; [| done].
      rewrite (Hout c0 Hr), lookup_insert_eq. by eexists.
    + intros c Hc. apply not_elem_of_cons in Hc as [Hne Hc].
      rewrite (Hout c Hc). by rewrite lookup_insert_ne.
Qed.

(** The selection recorded for a threshold comes from the trackers as they
    stand after every combination list the provider returned so far. *)
Lemma get_parents_loop_concat (OL_PARENT : string) (coh : provider)
      (w1_reading : string) (w1_parent : option string) (connectivity : list Z)
      (t tf : trackers) (p : combination) (seen : list combination)
      (pm m : gmap Z (option combination)) :
  for_each consider seen fresh_trackers = Ok tf →
  t = set_parents p tf →
  get_parents_loop OL_PARENT coh w1_reading w1_parent connectivity t pm
    = Ok (Some m) →
  ∀ pre c post, connectivity = pre ++ c :: post → c ∉ post →
    ∃ ls t',
      Forall2 (λ c' l, coh w1_reading w1_parent c' = Some l) (pre ++ [c]) ls ∧
      threshold_pass OL_PARENT w1_parent (seen ++ concat ls) fresh_trackers
        = Ok t' ∧
      m !! c = Some (Some (parents t')).
Proof.
  revert t tf p seen pm.
  induction connectivity as [| c0 rest IH];
    intros t tf p seen pm Hseen Ht Hrun pre c post Hsplit Hlast.
  - by destruct pre.
  - simpl in Hrun.
    destruct (coh w1_reading w1_parent c0) as [combos |] eqn:Hc0; [| done].
    unfold threshold_pass in Hrun.
    rewrite Ht, for_each_consider_set_parents in Hrun.
    destruct (for_each consider combos tf) as [tf' |] eqn:Hpass; [| done].
    simpl in Hrun. rewrite analyse_set_parents in Hrun.
    assert (Hseen' : for_each consider (seen ++ combos) fresh_trackers = Ok tf').
    { by rewrite for_each_app, Hseen. }
    destruct pre as [| c1 pre].
    + simpl in Hsplit. inversion Hsplit; subst c0 rest.
      exists [combos], (analyse OL_PARENT w1_parent tf').
      split; [by repeat constructor |].
      split.
      * unfold threshold_pass. simpl. by rewrite app_nil_r, Hseen'.
      * destruct (get_parents_loop_keys _ _ _ _ _ _ _ _ Hrun) as (_ & Hout).
        by rewrite (Hout c Hlast), lookup_insert_eq.
    + simpl in Hsplit. inversion Hsplit; subst c1 rest.
      destruct (IH _ tf' (parents (analyse OL_PARENT w1_parent tf'))
                  (seen ++ combos) _ Hseen'
                  (analyse_is_set_parents OL_PARENT w1_parent tf')
                  Hrun pre c post eq_refl Hlast)
        as (ls & t' & Hans & Hpass' & Hm).
      exists (combos :: ls), t'. split; [by constructor |].
      split; [| done]. simpl. by rewrite app_assoc.
Qed.

(** Where the selection of a pass with fresh trackers comes from. *)
Lemma pass_selection_origin (OL_PARENT : string) (w1_parent : option string)
      (combos : list combination) (t : trackers) :
  threshold_pass OL_PARENT w1_parent combos fresh_trackers = Ok t →
  parents t = [] ∨
  (parents t = [synthetic_ol_parent] ∧ w1_parent = Some OL_PARENT) ∨
  (survives (parents t) = true ∧ parents t ∈ combos).
Proof.
  unfold threshold_pass.
  destruct (for_each_tracked combos fresh_trackers [] tracked_fresh)
    as (tf & -> & Htf & _).
  simpl. intros H. inversion H; subst t. clear H.
  unfold tracked in Htf. unfold analyse.
  destruct (best_gen tf) as [g |] eqn:Hbg, (best_rank tf) as [r |] eqn:Hbr;
    try done.
  - destruct Htf as (_ & _ & Hgw & Hrw).
    destruct (winner_in_gen _ _ Hgw) as [Hgin Hgs].
    destruct (winner_in_rank _ _ Hrw) as [Hrin Hrs].
    right. right. simpl.
    destruct (decide (Some g = Some 1)).
    + destruct (best_parents_by_gen tf) as [| x bp]; [done |].
      by destruct (decide (w1_parent = Some OL_PARENT)).
    + destruct (best_parents_by_rank tf) as [| x bp]; [done |].
      by destruct (decide (w1_parent = Some OL_PARENT)).
  - destruct Htf as (_ & Hg & Hr). simpl. rewrite Hr.
    destruct (decide (None = Some 1)); [done |].
    destruct (decide (w1_parent = Some OL_PARENT)); [| by left].
    right. by left.
Qed.

Lemma Forall2_answer {A B} (R : A → B → Prop) (xs : list A) (ys : list B) y :
  Forall2 R xs ys → y ∈ ys → ∃ x, x ∈ xs ∧ R x y.
Proof.
  induction 1 as [| x y' xs ys Hxy _ IH]; intros Hin.
  - by apply elem_of_nil in Hin.
  - apply elem_of_cons in Hin as [-> | Hin].
    + exists x. split; [by left | done].
    + destruct (IH Hin) as (x' & Hx' & HR). exists x'. split; [by right | done].
Qed.

(** X2: a selection that [get_parents] records is empty, or the synthetic
    candidate (only when the nominal parent is the sentinel), or a
    combination that survives the filter (non-empty, generation at most 2)
    and that the provider returned at one of the thresholds of this call. *)
Theorem recorded_selection_origin (OL_PARENT : string) {database : Type}
        (GC : database → string → string → provider)
        (w1 w1_reading : string) (w1_parent : option string)
        (variant_unit : string) (connectivity : list Z) (db_file : database)
        (m : gmap Z (option combination)) (c : Z) (sel : combination) :
  get_parents OL_PARENT GC w1 w1_reading w1_parent variant_unit
    connectivity db_file = Ok (Some m) →
  m !! c = Some (Some sel) →
  sel = [] ∨
  (sel = [(Some "OL_PARENT", -1, 1)] ∧ w1_parent = Some OL_PARENT) ∨
  (sel ≠ [] ∧ comb_gen sel ≤ 2 ∧
   ∃ c' l, c' ∈ connectivity ∧
           GC db_file w1 variant_unit w1_reading w1_parent c' = Some l ∧
           sel ∈ l).
Proof.
  unfold get_parents. intros Hrun Hsel.
  destruct (get_parents_loop_keys _ _ _ _ _ _ _ _ Hrun) as (_ & Hout).
  assert (Hc : c ∈ connectivity).
  { destruct (decide (c ∈ connectivity)) as [Hc | Hc]; [done |].
    rewrite (Hout c Hc), lookup_empty in Hsel. done. }
  apply list_elem_of_split_r in Hc as (pre & post & Hsplit & Hlast).
  destruct (get_parents_loop_concat _ _ _ _ _ _ fresh_trackers [] [] _ _
              eq_refl eq_refl Hrun pre c post Hsplit Hlast)
    as (ls & t' & Hans & Hpass & Hm).
  rewrite Hm in Hsel. inversion Hsel; subst sel. simpl in Hpass.
  destruct (pass_selection_origin _ _ _ _ Hpass) as [H | [H | [Hs Hin]]];
    [by left | right; by left |].
  right. right. split; [by apply survives_nonempty |].
  split; [by apply survives_gen |].
  apply list_elem_of_In, in_concat in Hin as (l & Hl & Hin).
  apply list_elem_of_In in Hl, Hin.
  destruct (Forall2_answer _ _ _ _ Hans Hl) as (c' & Hc' & Hcoh).
  exists c', l. split; [| done]. rewrite Hsplit.
  apply elem_of_app in Hc' as [Hc' | Hc'].
  - apply elem_of_app. by left.
  - apply list_elem_of_singleton in Hc' as ->.
    apply elem_of_app. right. by left.
Qed.

Lemma recorded_selection_origin_witness :
  [(Some "A", 5, 1)] = [] ∨
  ([(Some "A", 5, 1)] = [(Some "OL_PARENT", -1, 1)] ∧
   Some "a" = Some "OL_PARENT") ∨
  ([(Some "A", 5, 1)] ≠ [] ∧ comb_gen [(Some "A", 5, 1)] ≤ 2 ∧
   ∃ c' l, c' ∈ [10; 1] ∧
           Scenario.coh_loose_only tt "B" "1/1" "b" (Some "a") c' = Some l ∧
           [(Some "A", 5, 1)] ∈ l).
Proof.
  apply (recorded_selection_origin "OL_PARENT" Scenario.coh_loose_only
           "B" "b" (Some "a") "1/1" [10; 1] tt
           (<[1 := Some [(Some "A", 5, 1)]]> {[ 10 := Some [(Some "A", 5, 1)] ]})
           1 [(Some "A", 5, 1)]).
  - vm_compute. reflexivity.
  - vm_compute. reflexivity.
Defined.

(** X3: the selection recorded for a threshold (at its last occurrence in
    the list) is the selection of one pass, with fresh trackers, over the
    provider's answers for all thresholds up to and including it, put end
    to end in the caller's order. *)
Theorem selection_accumulates (OL_PARENT : string) {database : Type}
        (GC : database → string → string → provider)
        (w1 w1_reading : string) (w1_parent : option string)
        (variant_unit : string) (connectivity : list Z) (db_file : database)
        (m : gmap Z (option combination)) (pre post : list Z) (c : Z) :
  get_parents OL_PARENT GC w1 w1_reading w1_parent variant_unit
    connectivity db_file = Ok (Some m) →
  connectivity = pre ++ c :: post →
  c ∉ post →
  ∃ ls t,
    Forall2 (λ c' l, GC db_file w1 variant_unit w1_reading w1_parent c' = Some l)
            (pre ++ [c]) ls ∧
    threshold_pass OL_PARENT w1_parent (concat ls) fresh_trackers = Ok t ∧
    m !! c = Some (Some (parents t)).
Proof.
  unfold get_parents. intros Hrun Hsplit Hlast.
  apply (get_parents_loop_concat _ _ _ _ _ _ fresh_trackers [] [] _ _
           eq_refl eq_refl Hrun pre c post Hsplit Hlast).
Qed.

Lemma selection_accumulates_witness :
  ∃ ls t,
    Forall2 (λ c' l, Scenario.coh_loose_only tt "B" "1/1" "b" (Some "a") c'
                     = Some l) ([10] ++ [1]) ls ∧
    threshold_pass "OL_PARENT" (Some "a") (concat ls) fresh_trackers = Ok t ∧
    (<[1 := Some [(Some "A", 5, 1)]]>
       ({[ 10 := Some [(Some "A", 5, 1)] ]} : gmap Z (option combination)))
      !! 1 = Some (Some (parents t)).
Proof.
  apply (selection_accumulates "OL_PARENT" Scenario.coh_loose_only
           "B" "b" (Some "a") "1/1" [10; 1] tt _ [10] [] 1).
  - vm_compute. reflexivity.
  - reflexivity.
  - apply not_elem_of_nil.
Defined.

(** ** The build as a whole *)

Lemma draw_rows_ok_or_forest {database : Type} (self : TextualFlow.t database)
      (conn_value : Z) (data : list row) st :
  (∀ x, x ∈ data →
     ∃ p, TextualFlow.lookup_parents self (row_witness x) conn_value = Ok p) →
  (∃ st', for_each (TextualFlow.draw_row self conn_value) data st = Ok st') ∨
  for_each (TextualFlow.draw_row self conn_value) data st = Raise ForestError.
Proof.
  revert st. induction data as [| x data IH]; intros st Hall.
  - left. by eexists.
  - rewrite for_each_cons.
    destruct (Hall x ltac:(by left)) as (p & Hp).
    destruct (TextualFlow.draw_row self conn_value st x) as [st1 | e] eqn:Hx;
      simpl.
    + apply IH. intros y Hy. apply Hall. by right.
    + right. destruct st as [G rm]. unfold TextualFlow.draw_row in Hx.
      rewrite Hp in Hx. simpl in Hx.
      destruct (all_null p); [| done].
      destruct (decide (row_witness x = "A")); [done |].
      destruct (TextualFlow.perfect_only self); [| done]. by inversion Hx.
Qed.

(** X4: when every witness of the unit has a selection for the threshold and
    the threshold has an output file, [draw_diagram] raises [ForestError]
    exactly when [perfect_only] is set and some witness other than "A" has a
    selection that is empty or all null; in every other case it returns the
    graph for that file. *)
Theorem build_raises_only_forest_error {database : Type}
        (self : TextualFlow.t database) (conn_value : Z) (data : list row)
        (witnesses : list (string * gmap string string)) (f : string) :
  (∀ x, x ∈ data →
     ∃ p, TextualFlow.lookup_parents self (row_witness x) conn_value = Ok p) →
  TextualFlow.output_files self !! conn_value = Some f →
  (TextualFlow.draw_diagram self conn_value data witnesses = Raise ForestError ↔
   TextualFlow.perfect_only self = true ∧
   ∃ x p, x ∈ data ∧ row_witness x ≠ "A" ∧
     TextualFlow.lookup_parents self (row_witness x) conn_value = Ok p ∧
     all_null p = true) ∧
  (TextualFlow.draw_diagram self conn_value data witnesses ≠ Raise ForestError →
   ∃ G rm, TextualFlow.draw_diagram self conn_value data witnesses
           = Ok (f, G, rm)).
Proof.
  intros Hall Hf. unfold TextualFlow.draw_diagram.
  pose proof (draw_rows_forest_error self conn_value data
                (add_nodes_from witnesses empty_graph, ∅) Hall) as Hiff.
  destruct (draw_rows_ok_or_forest self conn_value data
              (add_nodes_from witnesses empty_graph, ∅) Hall)
    as [([G rm] & Hok) | Hraise].
  - rewrite Hok in *. simpl. rewrite Hf. split.
    + split; [done |]. intros H. apply Hiff in H. done.
    + intros _. by exists G, rm.
  - rewrite Hraise in *. simpl. split; [| done].
    split; [| done]. intros _. by apply Hiff.
Qed.

Lemma build_raises_only_forest_error_witness :
  let self := TextualFlow.Self {[ 3 := "out.svg" ]} [3] tt "1/1" true ""
                (<["D" := Some {[ 3 := Some [] ]}]>
                   {[ "A" := Some {[ 3 := Some [] ]} ]}) in
  let data : list row := [ ("A", "a", None); ("D", "b", Some "a") ] in
  (TextualFlow.draw_diagram self 3 data [] = Raise ForestError ↔
   TextualFlow.perfect_only self = true ∧
   ∃ x p, x ∈ data ∧ row_witness x ≠ "A" ∧
     TextualFlow.lookup_parents self (row_witness x) 3 = Ok p ∧
     all_null p = true) ∧
  (TextualFlow.draw_diagram self 3 data [] ≠ Raise ForestError →
   ∃ G rm, TextualFlow.draw_diagram self 3 data [] = Ok ("out.svg", G, rm)).
Proof.
  intros self data.
  apply (build_raises_only_forest_error self 3 data [] "out.svg").
  - intros x Hin.
    apply elem_of_cons in Hin as [-> | Hin]; [by exists [] |].
    apply elem_of_cons in Hin as [-> | Hin]; [by exists [] |].
    by apply elem_of_nil in Hin.
  - reflexivity.
Defined.

Lemma draw_rows_caption_keys {database : Type} (self : TextualFlow.t database)
      (conn_value : Z) (data : list row) G0 rm0 G rm :
  for_each (TextualFlow.draw_row self conn_value) data (G0, rm0) = Ok (G, rm) →
  dom rm = dom rm0 ∪ list_to_set (row_witness <$> data).
Proof.
  revert G0 rm0. induction data as [| x data IH]; intros G0 rm0 Hrun.
  - inversion Hrun; subst. set_solver.
  - rewrite for_each_cons in Hrun.
    destruct (TextualFlow.draw_row self conn_value (G0, rm0) x)
      as [[G1 rm1] |] eqn:Hrow; [| done].
    rewrite (IH _ _ Hrun).
    destruct (draw_row_ok _ _ _ _ _ _ _ Hrow) as (p & _ & -> & _).
    rewrite dom_insert_L, fmap_cons. set_solver.
Qed.

(** X5: a completed build captions every witness of the unit and nothing
    else: the keys of [rank_mapping] are exactly the witness ids, so a node
    that is no witness (such as "OL_PARENT") keeps its own name when the
    graph is relabelled. *)
Theorem captions_cover_witnesses {database : Type}
        (self : TextualFlow.t database) (conn_value : Z) (data : list row)
        (witnesses : list (string * gmap string string))
        (f : string) (G : DiGraph) (rm : gmap string string) :
  TextualFlow.draw_diagram self conn_value data witnesses = Ok (f, G, rm) →
  dom rm = list_to_set (row_witness <$> data).
Proof.
  unfold TextualFlow.draw_diagram.
  destruct (for_each _ data _) as [[G' rm'] |] eqn:Hrun; simpl; [| done].
  destruct (TextualFlow.output_files self !! conn_value); [| done].
  intros H. inversion H; subst.
  rewrite (draw_rows_caption_keys _ _ _ _ _ _ _ Hrun). set_solver.
Qed.

Lemma captions_cover_witnesses_witness :
  dom (<["C" := "C/-1 (b)"]> ({[ "A" := "A (a)" ]} : gmap string string))
  = list_to_set (row_witness <$> Scenario.rows_overlap tt "1/1").
Proof.
  apply (captions_cover_witnesses
           (TextualFlow.Self {[ 3 := "textual_flow_1_1_c3.svg" ]} [3] tt "1/1"
              false ""
              (<["C" := Some {[ 3 := Some [synthetic_ol_parent] ]}]>
                 {[ "A" := Some {[ 3 := Some [] ]} ]}))
           3 (Scenario.rows_overlap tt "1/1") [("A", ∅); ("C", ∅)]
           "textual_flow_1_1_c3.svg"
           (add_edge (Some "OL_PARENT") (Some "C")
              (add_nodes_from [("A", ∅); ("C", ∅)] empty_graph))).
  vm_compute. reflexivity.
Defined.

(** ** Node attributes *)

Lemma add_node_lookup n d G n' :
  node (add_node n d G) !! n' =
  if decide (n = n') then Some (d ∪ default ∅ (node G !! n)) else node G !! n'.
Proof. unfold add_node; simpl. apply lookup_insert. Qed.

(** [add_edge] keeps the attributes of the nodes that are there and gives
    the nodes it creates none. *)
Lemma add_edge_lookup u v G n :
  node (add_edge u v G) !! n =
  match node G !! n with
  | Some a => Some a
  | None => if decide (n = u ∨ n = v) then Some ∅ else None
  end.
Proof.
  change (node (add_edge u v G))
    with (node (add_node v ∅ (add_node u ∅ G))).
  rewrite add_node_lookup.
  destruct (decide (v = n)) as [-> | Hv].
  - rewrite add_node_lookup.
    destruct (decide (u = n)) as [-> | Hu].
    + destruct (node G !! n) as [a |]; simpl.
      * by rewrite !(left_id_L ∅ (∪)).
      * rewrite decide_True by (by left). by rewrite !(left_id_L ∅ (∪)).
    + destruct (node G !! n) as [a |]; simpl.
      * by rewrite (left_id_L ∅ (∪)).
      * rewrite decide_True by (by right). by rewrite (left_id_L ∅ (∪)).
  - rewrite add_node_lookup.
    destruct (decide (u = n)) as [-> | Hu].
    + destruct (node G !! n) as [a |]; simpl.
      * by rewrite (left_id_L ∅ (∪)).
      * rewrite decide_True by (by left). by rewrite (left_id_L ∅ (∪)).
    + destruct (node G !! n) as [a |]; [done |].
      rewrite decide_False; [done |]. intros [-> | ->]; done.
Qed.

Lemma add_edges_lookup (v : option string) (p : combination) G n :
  (∀ a, node G !! n = Some a →
        node (fold_left (λ G c, add_edge (cand_ancestor c) v G) p G) !! n
        = Some a) ∧
  (node G !! n = None →
   ∀ a, node (fold_left (λ G c, add_edge (cand_ancestor c) v G) p G) !! n
        = Some a → a = ∅).
Proof.
  revert G. induction p as [| c p IH]; intros G; simpl.
  - split; [done |]. intros Hn a Ha. congruence.
  - destruct (IH (add_edge (cand_ancestor c) v G)) as (Hkeep & Hnew).
    split.
    + intros a Ha. apply Hkeep. by rewrite add_edge_lookup, Ha.
    + intros Hn a Ha.
      destruct (node (add_edge (cand_ancestor c) v G) !! n) as [a' |] eqn:He.
      * rewrite (Hkeep a' eq_refl) in Ha. inversion Ha; subst a'.
        rewrite add_edge_lookup, Hn in He.
        destruct (decide _); by inversion He.
      * by apply Hnew.
Qed.

Lemma draw_rows_attributes {database : Type} (self : TextualFlow.t database)
      (conn_value : Z) (data : list row) G0 rm0 G rm n :
  for_each (TextualFlow.draw_row self conn_value) data (G0, rm0) = Ok (G, rm) →
  (∀ a, node G0 !! n = Some a → node G !! n = Some a) ∧
  (node G0 !! n = None → ∀ a, node G !! n = Some a → a = ∅).
Proof.
  revert G0 rm0. induction data as [| x data IH]; intros G0 rm0 Hrun.
  - inversion Hrun; subst. split; [done |]. intros Hn a Ha. congruence.
  - rewrite for_each_cons in Hrun.
    destruct (TextualFlow.draw_row self conn_value (G0, rm0) x)
      as [[G1 rm1] |] eqn:Hrow; [| done].
    destruct (IH _ _ Hrun) as (Hkeep & Hnew).
    destruct (draw_row_ok _ _ _ _ _ _ _ Hrow) as (p & _ & _ & HG1).
    destruct (all_null p); [subst G1; by split |].
    destruct (add_edges_lookup (Some (row_witness x)) p G0 n) as (Hk1 & Hn1).
    rewrite <- HG1 in Hk1, Hn1. split.
    + intros a Ha. apply Hkeep. by apply Hk1.
    + intros Hn a Ha. destruct (node G1 !! n) as [a' |] eqn:He.
      * rewrite (Hkeep a' eq_refl) in Ha. inversion Ha; subst a'.
        by apply Hn1.
      * by apply Hnew.
Qed.

Lemma add_nodes_from_other l G n :
  n ∉ (Some <$> l.*1) → node (add_nodes_from l G) !! n = node G !! n.
Proof.
  unfold add_nodes_from. revert G. induction l as [| nd l IH]; intros G Hn.
  - done.
  - simpl in *. apply not_elem_of_cons in Hn as [Hne Hn].
    rewrite (IH _ Hn), add_node_lookup. by rewrite decide_False.
Qed.

Lemma add_nodes_from_lookup l G w d :
  NoDup l.*1 → (∀ w', w' ∈ l.*1 → node G !! Some w' = None) →
  (w, d) ∈ l → node (add_nodes_from l G) !! Some w = Some d.
Proof.
  unfold add_nodes_from. revert G.
  induction l as [| [w0 d0] l IH]; intros G Hnd Hfree Hin.
  - by apply elem_of_nil in Hin.
  - simpl in *. apply NoDup_cons in Hnd as [Hfresh Hnd].
    apply elem_of_cons in Hin as [Heq | Hin].
    + inversion Heq; subst w0 d0.
      fold (add_nodes_from l (add_node (Some w) d G)).
      rewrite add_nodes_from_other.
      * rewrite add_node_lookup, decide_True by done.
        rewrite (Hfree w) by (by left). simpl. by rewrite (right_id_L ∅ (∪)).
      * intros Hw. apply list_elem_of_fmap in Hw as (w' & Hw' & Hin').
        inversion Hw'; subst w'. done.
    + apply IH; [done | | done].
      intros w' Hw'. rewrite add_node_lookup, decide_False.
      * apply Hfree. by right.
      * intros Heq. inversion Heq; subst w'. done.
Qed.

(** X6: in a completed build of witnesses with distinct ids, every witness
    node still carries exactly the attributes it was created with (adding
    edges never touches them), and every node that is no witness, such as
    the "OL_PARENT" node made by an edge, has no attributes at all. *)
Theorem witness_attributes_kept {database : Type}
        (self : TextualFlow.t database) (conn_value : Z) (data : list row)
        (witnesses : list (string * gmap string string))
        (f : string) (G : DiGraph) (rm : gmap string string) :
  TextualFlow.draw_diagram self conn_value data witnesses = Ok (f, G, rm) →
  NoDup witnesses.*1 →
  (∀ w d, (w, d) ∈ witnesses → node G !! Some w = Some d) ∧
  (∀ n a, n ∉ (Some <$> witnesses.*1) → node G !! n = Some a → a = ∅).
Proof.
  unfold TextualFlow.draw_diagram.
  destruct (for_each _ data _) as [[G' rm'] |] eqn:Hrun; simpl; [| done].
  destruct (TextualFlow.output_files self !! conn_value); [| done].
  intros H Hnd. inversion H; subst. clear H. split.
  - intros w d Hin.
    destruct (draw_rows_attributes _ _ _ _ _ _ _ (Some w) Hrun) as (Hkeep & _).
    apply Hkeep. by apply add_nodes_from_lookup.
  - intros n a Hn Ha.
    destruct (draw_rows_attributes _ _ _ _ _ _ _ n Hrun) as (_ & Hnew).
    apply (Hnew (add_nodes_from_other _ _ _ Hn) a Ha).
Qed.

Lemma witness_attributes_kept_witness :
  let witnesses : list (string * gmap string string) :=
    [ ("A", {[ "style" := "filled" ]}); ("C", {[ "style" := "filled" ]}) ] in
  let G := add_edge (Some "OL_PARENT") (Some "C")
             (add_nodes_from witnesses empty_graph) in
  (∀ w d, (w, d) ∈ witnesses → node G !! Some w = Some d) ∧
  (∀ n a, n ∉ (Some <$> witnesses.*1) → node G !! n = Some a → a = ∅).
Proof.
  intros witnesses G.
  apply (witness_attributes_kept
           (TextualFlow.Self {[ 3 := "textual_flow_1_1_c3.svg" ]} [3] tt "1/1"
              false ""
              (<["C" := Some {[ 3 := Some [synthetic_ol_parent] ]}]>
                 {[ "A" := Some {[ 3 := Some [] ]} ]}))
           3 (Scenario.rows_overlap tt "1/1") witnesses
           "textual_flow_1_1_c3.svg" G
           (<["C" := "C/-1 (b)"]> {[ "A" := "A (a)" ]})).
  - vm_compute. reflexivity.
  - repeat constructor; set_solver.
Defined.

(** ** Rows that are styled, resolved and drawn *)

(** Every fill colour the palette can give has a border colour: [darken]
    does not raise on it. *)
Lemma colour_darkens ch :
  ∃ s, darken (colour_of ch) darken_default_by = Ok s.
Proof.
  destruct ch as [[] [] [] [] [] [] [] []]; vm_compute; by eexists.
Qed.

Lemma styled_all_returns data :
  (∀ x, x ∈ data → row_label x ≠ "") → ∃ ws, styled_all data = Ok ws.
Proof.
  induction data as [| x data IH]; intros Hlab.
  - by eexists.
  - change (styled_all (x :: data))
      with (w <- styled x ;; ws <- styled_all data ;; Ok (w :: ws)).
    assert (∃ w, styled x = Ok w) as (w & ->).
    { unfold styled. pose proof (Hlab x ltac:(by left)) as Hx.
      destruct (row_label x) as [| ch ?]; [done |].
      destruct (colour_darkens ch) as (col & ->). by eexists. }
    destruct IH as (ws & ->); [intros y Hy; apply Hlab; by right |].
    by eexists.
Qed.

Section Completes.

Context {database : Type}.
Variable OL_PARENT : string.
Variable GC : database → string → string → provider.

Lemma resolve_rows_resolved data (self : TextualFlow.t database) :
  (∀ x c, x ∈ data → c ∈ TextualFlow.connectivity self →
     GC (TextualFlow.db_file self) (row_witness x)
        (TextualFlow.variant_unit self) (row_label x) (row_parent x) c ≠ None) →
  ∃ self',
    for_each (TextualFlow.resolve_row OL_PARENT GC) data self = Ok self' ∧
    TextualFlow.output_files self' = TextualFlow.output_files self ∧
    TextualFlow.connectivity self' = TextualFlow.connectivity self ∧
    TextualFlow.perfect_only self' = TextualFlow.perfect_only self ∧
    ∀ w, (w ∈ row_witness <$> data ∨
          resolved (TextualFlow.connectivity self)
                   (TextualFlow.parent_maps self !! w)) →
         resolved (TextualFlow.connectivity self)
                  (TextualFlow.parent_maps self' !! w).
Proof.
  revert self. induction data as [| x data IH]; intros self Hprov.
  - exists self. repeat split; try done.
    intros w [Hin | Hres]; [by apply elem_of_nil in Hin | done].
  - rewrite for_each_cons. unfold TextualFlow.resolve_row at 1.
    unfold get_parents.
    destruct (get_parents_loop_returns OL_PARENT
                (GC (TextualFlow.db_file self) (row_witness x)
                    (TextualFlow.variant_unit self))
                (row_label x) (row_parent x) (TextualFlow.connectivity self)
                fresh_trackers [] ∅ tracked_fresh) as (r & Hr & Hnone).
    rewrite Hr. simpl.
    destruct r as [m |].
    2: { destruct (proj1 Hnone eq_refl) as (c & Hc & Hraise).
         destruct (Hprov x c ltac:(by left) Hc Hraise). }
    destruct (get_parents_loop_keys _ _ _ _ _ _ _ _ Hr) as (Hmap & _).
    set (self1 := TextualFlow.Self _ _ _ _ _ _ _).
    destruct (IH self1) as (self' & Hrun & Ho & Hc & Hp & Hres).
    { intros y c Hy Hc. apply Hprov; [by right | done]. }
    exists self'. split; [done |]. repeat split; try done.
    intros w Hw. apply Hres. simpl.
    destruct (decide (w = row_witness x)) as [-> | Hne].
    + right. exists m. rewrite lookup_insert_eq. split; [done |].
      intros c Hc'. by apply Hmap.
    + destruct Hw as [Hw | Hw].
      * left. apply elem_of_cons in Hw as [? | Hw]; done.
      * right. by rewrite lookup_insert_ne.
Qed.

Lemma lookup_parents_resolved (self : TextualFlow.t database) conns w c :
  resolved conns (TextualFlow.parent_maps self !! w) → c ∈ conns →
  ∃ p, TextualFlow.lookup_parents self w c = Ok p.
Proof.
  intros (m & Hm & Hall) Hc. destruct (Hall c Hc) as (sel & Hsel).
  exists sel. unfold TextualFlow.lookup_parents. by rewrite Hm, Hsel.
Qed.

Lemma draw_diagram_returns (self : TextualFlow.t database) c data witnesses :
  TextualFlow.perfect_only self = false →
  is_Some (TextualFlow.output_files self !! c) →
  (∀ x, x ∈ data →
     ∃ p, TextualFlow.lookup_parents self (row_witness x) c = Ok p) →
  ∃ a, TextualFlow.draw_diagram self c data witnesses = Ok a.
Proof.
  intros Hperf (f & Hf) Hall. unfold TextualFlow.draw_diagram.
  destruct (draw_rows_ok_or_forest self c data
              (add_nodes_from witnesses empty_graph, ∅) Hall)
    as [(st & ->) | Hraise].
  - simpl. rewrite Hf. by eexists.
  - apply (draw_rows_forest_error _ _ _ _ Hall) in Hraise as (Hp & _).
    congruence.
Qed.

End Completes.

(** ** The artifact cache across units *)

Section Cache.

Context {database : Type}.
Variable OL_PARENT : string.
Variable GC : database → string → string → provider.
Variable select_cbgm : database → string → list row.

(** A completed unit has written the artifacts that were absent. *)
Lemma init_written (exists_ : string → bool) (db_file : database)
      (variant_unit : string) (connectivity : list Z) (perfect_only : bool)
      (suffix : string) (arts : list TextualFlow.artifact) :
  TextualFlow.init OL_PARENT GC select_cbgm exists_ db_file variant_unit
    connectivity perfect_only suffix = Ok arts →
  written arts =
    (λ c, output_file_name variant_unit c suffix) <$>
      filter (artifact_absent exists_ variant_unit suffix) connectivity.
Proof.
  unfold TextualFlow.init.
  set (scanned := TextualFlow.scan_outputs exists_ variant_unit suffix
                    connectivity (∅, [])).
  set (absent := artifact_absent exists_ variant_unit suffix).
  assert (Hconn : scanned.2 = filter absent connectivity)
    by apply scan_outputs_connectivity.
  assert (Hfiles : ∀ c, c ∈ filter absent connectivity →
            scanned.1 !! c = Some (output_file_name variant_unit c suffix)).
  { intros c Hin. unfold scanned. rewrite scan_outputs_files.
    by rewrite decide_True. }
  destruct (decide (scanned.1 = ∅)) as [Hempty | Hne].
  - intros H. inversion H; subst.
    destruct (filter absent connectivity) as [| c l] eqn:Hf; [done |].
    specialize (Hfiles c ltac:(by left)).
    rewrite Hempty, lookup_empty in Hfiles. done.
  - unfold TextualFlow.textual_flow. simpl.
    destruct (styled_all _) as [ws |]; [| done]. simpl.
    destruct (for_each _ _ _) as [self' |] eqn:Hres; [| done]. simpl.
    destruct (resolve_rows_fields _ _ _ _ _ Hres) as (Ho & Hc).
    simpl in Ho, Hc. rewrite Hc, Hconn. intros Hdraw.
    eapply draw_all_written; [| exact Hdraw].
    intros c Hin. rewrite Ho. by apply Hfiles.
Qed.

(** A unit all of whose artifacts exist is left alone: neither the database
    nor the provider is consulted. *)
Lemma init_nothing_to_do (exists_ : string → bool) (db_file : database)
      (variant_unit : string) (connectivity : list Z) (perfect_only : bool)
      (suffix : string) :
  (∀ c, c ∈ connectivity →
        exists_ (output_file_name variant_unit c suffix) = true) →
  TextualFlow.init OL_PARENT GC select_cbgm exists_ db_file variant_unit
    connectivity perfect_only suffix = Ok [].
Proof.
  intros Hall. unfold TextualFlow.init.
  rewrite decide_True; [done |].
  apply map_eq. intros c. rewrite scan_outputs_files, lookup_empty.
  rewrite decide_False; [done |].
  intros Hin. apply list_elem_of_filter in Hin as [Habs Hin].
  unfold artifact_absent in Habs. rewrite (Hall c Hin) in Habs. done.
Qed.

(** X8: in one run, a unit whose name differs from the previous unit's only
    by '/' against '_' (so the same unit listed twice as well) shares its
    artifact names with it and is skipped altogether: the run writes what it
    would write without that unit. *)
Theorem colliding_unit_is_skipped (files : gset string) (db_file : database)
        (vu vu' : string) (rest : list string) (connectivity : list Z)
        (perfect_only : bool) (suffix : string) :
  replace "/"%char "_"%char vu' = replace "/"%char "_"%char vu →
  textual_flow OL_PARENT GC select_cbgm files db_file (vu :: vu' :: rest)
    connectivity perfect_only suffix =
  textual_flow OL_PARENT GC select_cbgm files db_file (vu :: rest)
    connectivity perfect_only suffix.
Proof.
  intros Hsame.
  change (textual_flow OL_PARENT GC select_cbgm files db_file
            (vu :: vu' :: rest) connectivity perfect_only suffix)
    with (arts <- TextualFlow.init OL_PARENT GC select_cbgm
                    (λ f, bool_decide (f ∈ files)) db_file vu connectivity
                    false "" ;;
          others <- textual_flow OL_PARENT GC select_cbgm
                      (files ∪ list_to_set (written arts)) db_file
                      (vu' :: rest) connectivity perfect_only suffix ;;
          Ok (arts ++ others)).
  change (textual_flow OL_PARENT GC select_cbgm files db_file
            (vu :: rest) connectivity perfect_only suffix)
    with (arts <- TextualFlow.init OL_PARENT GC select_cbgm
                    (λ f, bool_decide (f ∈ files)) db_file vu connectivity
                    false "" ;;
          others <- textual_flow OL_PARENT GC select_cbgm
                      (files ∪ list_to_set (written arts)) db_file
                      rest connectivity perfect_only suffix ;;
          Ok (arts ++ others)).
  destruct (TextualFlow.init OL_PARENT GC select_cbgm
              (λ f, bool_decide (f ∈ files)) db_file vu connectivity false "")
    as [arts |] eqn:Hvu; [| done].
  simpl Py.bind at 1 3.
  set (files' := files ∪ list_to_set (written arts)).
  change (textual_flow OL_PARENT GC select_cbgm files' db_file
            (vu' :: rest) connectivity perfect_only suffix)
    with (arts' <- TextualFlow.init OL_PARENT GC select_cbgm
                     (λ f, bool_decide (f ∈ files')) db_file vu' connectivity
                     false "" ;;
          others <- textual_flow OL_PARENT GC select_cbgm
                      (files' ∪ list_to_set (written arts')) db_file
                      rest connectivity perfect_only suffix ;;
          Ok (arts' ++ others)).
  rewrite init_nothing_to_do.
  - simpl. rewrite (right_id_L ∅ (∪)).
    by destruct (textual_flow _ _ _ files' _ _ _ _ _).
  - intros c Hc. apply bool_decide_eq_true.
    assert (Hname : output_file_name vu' c "" = output_file_name vu c "")
      by (unfold output_file_name; by rewrite Hsame).
    rewrite Hname. unfold files'.
    destruct (decide (output_file_name vu c "" ∈ files)) as [Hin | Hout];
      [set_solver |].
    apply elem_of_union. right. apply elem_of_list_to_set.
    rewrite (init_written _ _ _ _ _ _ _ Hvu).
    apply list_elem_of_fmap. exists c. split; [done |].
    apply list_elem_of_filter. split; [| done].
    unfold artifact_absent. by apply bool_decide_eq_false.
Qed.

End Cache.

Lemma colliding_unit_is_skipped_witness :
  textual_flow "OL_PARENT" Scenario.coh_abc Scenario.rows_abc ∅ tt
    ["1/1"; "1_1"; "2/1"] [3; 5] false "" =
  textual_flow "OL_PARENT" Scenario.coh_abc Scenario.rows_abc ∅ tt
    ["1/1"; "2/1"] [3; 5] false "".
Proof.
  apply (colliding_unit_is_skipped "OL_PARENT" Scenario.coh_abc
           Scenario.rows_abc ∅ tt "1/1" "1_1" ["2/1"] [3; 5] false "").
  reflexivity.
Defined.

(** ** Artifact names *)

Lemma string_length_append (a b : string) :
  String.length (a +:+ b) = (String.length a + String.length b)%nat.
Proof. induction a as [| x a IH]; simpl; [done | by rewrite IH]. Qed.

Lemma string_append_inj_l (s a b : string) : s +:+ a = s +:+ b → a = b.
Proof.
  induction s as [| x s IH]; simpl; [done |]. intros H. inversion H. auto.
Qed.

Lemma string_append_inj_r (s a b : string) : a +:+ s = b +:+ s → a = b.
Proof.
  revert b. induction a as [| x a IH]; intros [| y b] H; simpl in H.
  - done.
  - apply (f_equal String.length) in H.
    rewrite !string_length_append in H. simpl in H. lia.
  - apply (f_equal String.length) in H.
    rewrite !string_length_append in H. simpl in H. lia.
  - inversion H; subst. f_equal. by apply IH.
Qed.

(** [str] of an [int] reads back as that [int]. *)
Lemma str_int_inj (a b : Z) : str_int a = str_int b → a = b.
Proof.
  unfold str_int. intros H.
  apply DecimalZ.to_int_inj.
  assert (Hgood : ∀ z, Z.to_int z ≠ Decimal.Pos Decimal.Nil ∧
                       Z.to_int z ≠ Decimal.Neg Decimal.Nil).
  { intros [| p | p]; simpl; split; try done; intros Hp; inversion Hp as [Hq];
      by apply DecimalPos.Unsigned.to_uint_nonnil in Hq. }
  destruct (Hgood a) as [Ha1 Ha2]. destruct (Hgood b) as [Hb1 Hb2].
  pose proof (DecimalString.NilZero.isi _ Ha1 Ha2) as Ia.
  pose proof (DecimalString.NilZero.isi _ Hb1 Hb2) as Ib.
  rewrite H in Ia. congruence.
Qed.

(** X9: for one unit and suffix, different thresholds have different
    artifact names, so no two thresholds of a run write the same file. *)
Theorem artifact_names_distinct (variant_unit suffix : string) (c1 c2 : Z) :
  c1 ≠ c2 →
  output_file_name variant_unit c1 suffix ≠
  output_file_name variant_unit c2 suffix.
Proof.
  intros Hne Heq. apply Hne. unfold output_file_name in Heq.
  apply string_append_inj_l, string_append_inj_l, string_append_inj_l in Heq.
  apply string_append_inj_r in Heq. by apply str_int_inj.
Qed.

Lemma artifact_names_distinct_witness :
  output_file_name "1/1" 1 "_x" ≠ output_file_name "1/1" 10 "_x".
Proof. apply (artifact_names_distinct "1/1" "_x" 1 10). lia. Defined.

(** ** Collecting results in MPI mode *)

Section Collect.

Context {database : Type}.
Variable OL_PARENT : string.
Variable GC : database → string → string → provider.

(** Handling a batch of results: the last result for a witness is the one
    that stays. *)
Lemma handled_lookup (results : list ((string * string * option string * string * list Z
                        * database) * option (gmap Z (option combination))))
      (self : TextualFlow.t database) :
  NoDup ((λ ar, ar.1.1.1.1.1.1) <$> results) →
  (∀ ar, ar ∈ results →
     TextualFlow.parent_maps
       (fold_left (λ s ar, TextualFlow.mpi_handle_result s ar.1 ar.2)
                  results self) !! ar.1.1.1.1.1.1 = Some ar.2) ∧
  (∀ w, w ∉ (λ ar, ar.1.1.1.1.1.1) <$> results →
     TextualFlow.parent_maps
       (fold_left (λ s ar, TextualFlow.mpi_handle_result s ar.1 ar.2)
                  results self) !! w = TextualFlow.parent_maps self !! w).
Proof.
  revert self. induction results as [| ar0 results IH]; intros self Hnd.
  - split; [| done]. intros ar Hin. by apply elem_of_nil in Hin.
  - rewrite fmap_cons in Hnd. apply NoDup_cons in Hnd as [Hfresh Hnd].
    simpl fold_left.
    destruct (IH (TextualFlow.mpi_handle_result self ar0.1 ar0.2) Hnd)
      as (Hin & Hout).
    split.
    + intros ar Har. apply elem_of_cons in Har as [-> | Har]; [| by apply Hin].
      rewrite (Hout _ Hfresh). simpl. by rewrite lookup_insert_eq.
    + intros w Hw. apply not_elem_of_cons in Hw as [Hne Hw].
      rewrite (Hout w Hw). simpl. by rewrite lookup_insert_ne.
Qed.

(** Direct mode: the loop over the rows always returns, and leaves for
    each witness what [get_parents] returned for its row. *)
Lemma resolved_lookup (data : list row) (self : TextualFlow.t database) :
  NoDup (row_witness <$> data) →
  ∃ self',
    for_each (TextualFlow.resolve_row OL_PARENT GC) data self = Ok self' ∧
    (∀ x, x ∈ data →
       ∃ r, TextualFlow.run_task OL_PARENT GC (TextualFlow.mpi_task self x)
              = Ok r ∧
            TextualFlow.parent_maps self' !! row_witness x = Some r) ∧
    (∀ w, w ∉ row_witness <$> data →
       TextualFlow.parent_maps self' !! w = TextualFlow.parent_maps self !! w).
Proof.
  revert self. induction data as [| x data IH]; intros self Hnd.
  - exists self. split; [done |]. split; [| done].
    intros x Hin. by apply elem_of_nil in Hin.
  - rewrite fmap_cons in Hnd. apply NoDup_cons in Hnd as [Hfresh Hnd].
    rewrite for_each_cons. unfold TextualFlow.resolve_row at 1.
    destruct (get_parents_loop_returns OL_PARENT
                (GC (TextualFlow.db_file self) (row_witness x)
                    (TextualFlow.variant_unit self))
                (row_label x) (row_parent x) (TextualFlow.connectivity self)
                fresh_trackers [] ∅ tracked_fresh) as (r & Hr & _).
    unfold get_parents at 1. rewrite Hr. simpl.
    set (self1 := TextualFlow.Self _ _ _ _ _ _ _).
    destruct (IH self1 Hnd) as (self' & Hrun & Hin & Hout).
    exists self'. split; [done |]. split.
    + intros y Hy. apply elem_of_cons in Hy as [-> | Hy].
      * exists r. split; [exact Hr |].
        rewrite (Hout _ Hfresh). simpl. by rewrite lookup_insert_eq.
      * exact (Hin y Hy).
    + intros w Hw. apply not_elem_of_cons in Hw as [Hne Hw].
      rewrite (Hout w Hw). simpl. by rewrite lookup_insert_ne.
Qed.

(** X10: for a unit with distinct witness ids, [mpi_handle_result] applied
    to the workers' results in whatever order they arrive (one result per
    queued task, each the value of [get_parents] on that task) leaves the
    same [parent_maps] as the direct loop over the rows, which always
    returns. *)
Theorem mpi_results_commute (data : list row) (self : TextualFlow.t database)
        (results : list ((string * string * option string * string * list Z
                        * database) * option (gmap Z (option combination)))) :
  NoDup (row_witness <$> data) →
  results.*1 ≡ₚ TextualFlow.mpi_task self <$> data →
  (∀ ar, ar ∈ results → TextualFlow.run_task OL_PARENT GC ar.1 = Ok ar.2) →
  returned TextualFlow.parent_maps
    (for_each (TextualFlow.resolve_row OL_PARENT GC) data self) =
  Ok (TextualFlow.parent_maps
        (fold_left (λ s ar, TextualFlow.mpi_handle_result s ar.1 ar.2)
                   results self)).
Proof.
  intros Hnd Hperm Hret.
  destruct (resolved_lookup data self Hnd) as (self' & -> & Hin & Hout).
  simpl. f_equal. apply map_eq. intros w.
  set (key := λ ar : (string * string * option string * string * list Z
                      * database) * option (gmap Z (option combination)),
                ar.1.1.1.1.1.1).
  assert (Hkeys : key <$> results ≡ₚ row_witness <$> data).
  { transitivity ((λ a : string * string * option string * string * list Z
                         * database, a.1.1.1.1.1) <$> results.*1).
    - by rewrite <- list_fmap_compose.
    - rewrite Hperm, <- list_fmap_compose. done. }
  assert (Hnd' : NoDup (key <$> results)) by (by rewrite Hkeys).
  destruct (handled_lookup results self Hnd') as (Hhin & Hhout).
  destruct (decide (w ∈ row_witness <$> data)) as [Hw | Hw].
  - apply list_elem_of_fmap in Hw as (x & -> & Hx).
    destruct (Hin x Hx) as (r & Hr & ->).
    assert (Htask : TextualFlow.mpi_task self x ∈ results.*1).
    { rewrite Hperm. apply list_elem_of_fmap. by exists x. }
    apply list_elem_of_fmap in Htask as ([args ret] & Hargs & Har).
    simpl in Hargs. subst args.
    pose proof (Hhin _ Har) as Hlk. simpl in Hlk.
    pose proof (Hret _ Har) as Hrun. simpl in Hrun, Hr.
    rewrite Hlk. congruence.
  - rewrite (Hout w Hw). symmetry. apply Hhout.
    fold key. by rewrite Hkeys.
Qed.

End Collect.

Lemma mpi_results_commute_witness :
  let self := TextualFlow.Self {[ 3 := "textual_flow_1_1_c3.svg" ]} [3] tt "1/1"
                false "" ∅ in
  let data := Scenario.rows_abc tt "1/1" in
  let results :=
    [ (("B", "b", Some "A", "1/1", [3], tt), Some {[ 3 := Some [(Some "A", 1, 1)] ]});
      (("A", "a", None, "1/1", [3], tt), Some {[ 3 := Some [] ]});
      (("C", "a", Some "A", "1/1", [3], tt), Some {[ 3 := Some [(Some "A", 2, 1)] ]}) ]
  in
  returned TextualFlow.parent_maps
    (for_each (TextualFlow.resolve_row "OL_PARENT" Scenario.coh_abc) data self) =
  Ok (TextualFlow.parent_maps
        (fold_left (λ s ar, TextualFlow.mpi_handle_result s ar.1 ar.2)
                   results self)).
Proof.
  intros self data results.
  apply (mpi_results_commute "OL_PARENT" Scenario.coh_abc data self results).
  - repeat constructor; set_solver.
  - apply perm_swap.
  - intros ar Hin.
    apply elem_of_cons in Hin as [-> | Hin]; [by vm_compute |].
    apply elem_of_cons in Hin as [-> | Hin]; [by vm_compute |].
    apply elem_of_cons in Hin as [-> | Hin]; [by vm_compute |].
    by apply elem_of_nil in Hin.
Defined.

(** ** Colours of the nodes *)

Lemma hex_val_bound c d : hex_val c = Some d → 0 ≤ d < 16.
Proof.
  unfold hex_val. set (n := Z.of_nat (nat_of_ascii c)).
  destruct ((48 <=? n) && (n <=? 57)) eqn:H1.
  { intros H. inversion H. apply andb_true_iff in H1 as [? ?]. lia. }
  destruct ((97 <=? n) && (n <=? 102)) eqn:H2.
  { intros H. inversion H. apply andb_true_iff in H2 as [? ?]. lia. }
  destruct ((65 <=? n) && (n <=? 70)) eqn:H3; [| done].
  intros H. inversion H. apply andb_true_iff in H3 as [? ?]. lia.
Qed.

Lemma slice_red (a c1 c2 : ascii) (t : string) :
  slice 1 3 (String a (String c1 (String c2 t))) = String c1 (String c2 "").
Proof. unfold slice. simpl. by destruct t. Qed.

Lemma slice_green (a c1 c2 c3 c4 : ascii) (t : string) :
  slice 3 5 (String a (String c1 (String c2 (String c3 (String c4 t)))))
  = String c3 (String c4 "").
Proof. unfold slice. simpl. by destruct t. Qed.

Lemma slice_blue (a c1 c2 c3 c4 c5 c6 : ascii) (t : string) :
  slice 5 7 (String a (String c1 (String c2 (String c3 (String c4
               (String c5 (String c6 t)))))))
  = String c5 (String c6 "").
Proof. unfold slice. simpl. by destruct t. Qed.

Lemma int16_pair c1 c2 d1 d2 :
  hex_val c1 = Some d1 → hex_val c2 = Some d2 →
  int16 (String c1 (String c2 "")) = Ok (16 * d1 + d2).
Proof.
  intros H1 H2. unfold int16, int16_acc. rewrite H1, H2. f_equal; lia.
Qed.

(** A darkened channel takes one digit below 0x5b and two from there on. *)
Lemma dark_length x :
  0 ≤ x < 256 →
  String.length (dark darken_default_by x) = if x <? 91 then 1%nat else 2%nat.
Proof.
  intros Hx.
  assert (Hall : forallb (λ n, Nat.eqb
                   (String.length (dark darken_default_by (Z.of_nat n)))
                   (if Z.of_nat n <? 91 then 1 else 2)) (seq 0 256) = true)
    by (vm_compute; reflexivity).
  rewrite forallb_forall in Hall.
  specialize (Hall (Z.to_nat x)). rewrite Z2Nat.id in Hall by lia.
  apply Nat.eqb_eq, Hall. apply in_seq. lia.
Qed.

(** X11: on a colour written "#" and six hexadecimal digits (whatever
    follows them is ignored) [darken] returns a string, and that string has
    the seven characters of "#RRGGBB" exactly when each of the three
    channels is at least 0x5b; a lower channel is written with one digit. *)
Theorem darken_seven_characters (c1 c2 c3 c4 c5 c6 : ascii) (tail : string)
        (d1 d2 d3 d4 d5 d6 : Z) :
  hex_val c1 = Some d1 → hex_val c2 = Some d2 → hex_val c3 = Some d3 →
  hex_val c4 = Some d4 → hex_val c5 = Some d5 → hex_val c6 = Some d6 →
  ∃ s,
    darken (String "#" (String c1 (String c2 (String c3 (String c4
              (String c5 (String c6 tail))))))) darken_default_by = Ok s ∧
    (String.length s = 7%nat ↔
     91 ≤ 16 * d1 + d2 ∧ 91 ≤ 16 * d3 + d4 ∧ 91 ≤ 16 * d5 + d6).
Proof.
  intros H1 H2 H3 H4 H5 H6. unfold darken.
  rewrite slice_red, slice_green, slice_blue.
  rewrite (int16_pair _ _ _ _ H1 H2), (int16_pair _ _ _ _ H3 H4),
    (int16_pair _ _ _ _ H5 H6).
  change (Ascii.eqb "#" "#") with true. cbv beta iota delta [Py.bind].
  eexists. split; [reflexivity |].
  apply hex_val_bound in H1, H2, H3, H4, H5, H6.
  rewrite !string_length_append.
  rewrite !dark_length by lia.
  change (String.length "#") with 1%nat.
  destruct (16 * d1 + d2 <? 91) eqn:E1, (16 * d3 + d4 <? 91) eqn:E2,
    (16 * d5 + d6 <? 91) eqn:E3; split; intros H; lia.
Qed.

Lemma darken_seven_characters_witness :
  ∃ s, darken "#36F200" darken_default_by = Ok s ∧
       (String.length s = 7%nat ↔
        91 ≤ 16 * 3 + 6 ∧ 91 ≤ 16 * 15 + 2 ∧ 91 ≤ 16 * 0 + 0).
Proof.
  apply (darken_seven_characters "3" "6" "F" "2" "0" "0" "" 3 6 15 2 0 0);
    reflexivity.
Defined.

(** X12: two lower-case letters get the same fill colour exactly when their
    positions in the alphabet differ by a multiple of 14: with stride 10 in
    a palette of 28, only 14 colours are in use, and letters 14 apart (such
    as 'a' and 'o') cannot be told apart by colour. *)
Theorem palette_period (i j : nat) :
  (i < 26)%nat → (j < 26)%nat →
  (colour_of (nth i ascii_lowercase " "%char) =
   colour_of (nth j ascii_lowercase " "%char) ↔ (i mod 14 = j mod 14)%nat).
Proof.
  intros Hi Hj.
  assert (Hall : forallb (λ i, forallb (λ j,
              Bool.eqb (String.eqb (colour_of (nth i ascii_lowercase " "%char))
                                   (colour_of (nth j ascii_lowercase " "%char)))
                       (Nat.eqb (i mod 14) (j mod 14)))
            (seq 0 26)) (seq 0 26) = true)
    by (vm_compute; reflexivity).
  rewrite forallb_forall in Hall.
  specialize (Hall i ltac:(apply in_seq; lia)).
  rewrite forallb_forall in Hall.
  specialize (Hall j ltac:(apply in_seq; lia)).
  apply Bool.eqb_prop in Hall.
  rewrite <- String.eqb_eq, <- Nat.eqb_eq, Hall. done.
Qed.

Lemma palette_period_witness :
  colour_of (nth 0 ascii_lowercase " "%char) =
  colour_of (nth 14 ascii_lowercase " "%char) ↔ (0 mod 14 = 14 mod 14)%nat.
Proof. apply (palette_period 0 14); lia. Defined.

(** ** A provider failure in a build *)

Lemma draw_rows_type_error {database : Type} (self : TextualFlow.t database)
      (conn_value : Z) (data : list row) st :
  TextualFlow.perfect_only self = false →
  (∀ y, y ∈ data →
     (∃ p, TextualFlow.lookup_parents self (row_witness y) conn_value = Ok p) ∨
     TextualFlow.lookup_parents self (row_witness y) conn_value
       = Raise TypeError) →
  (∃ y, y ∈ data ∧
     TextualFlow.lookup_parents self (row_witness y) conn_value
       = Raise TypeError) →
  for_each (TextualFlow.draw_row self conn_value) data st = Raise TypeError.
Proof.
  intros Hperf. revert st.
  induction data as [| x data IH]; intros st Hall (y & Hy & Hraise).
  - by apply elem_of_nil in Hy.
  - rewrite for_each_cons. destruct st as [G rm].
    unfold TextualFlow.draw_row at 1.
    destruct (Hall x ltac:(by left)) as [(p & Hp) | Hx].
    + rewrite Hp. simpl. rewrite Hperf.
      assert (Hrest : ∀ st', for_each (TextualFlow.draw_row self conn_value)
                               data st' = Raise TypeError).
      { intros st'. apply IH.
        - intros z Hz. apply Hall. by right.
        - apply elem_of_cons in Hy as [-> | Hy]; [congruence |]. by exists y. }
      destruct (all_null p); [destruct (decide _) |]; simpl; apply Hrest.
    + by rewrite Hx.
Qed.

Lemma resolve_rows_perfect_only {database : Type} (OL_PARENT : string)
      (GC : database → string → string → provider) data
      (self self' : TextualFlow.t database) :
  for_each (TextualFlow.resolve_row OL_PARENT GC) data self = Ok self' →
  TextualFlow.perfect_only self' = TextualFlow.perfect_only self.
Proof.
  revert self. induction data as [| x data IH]; intros self Hrun.
  - by inversion Hrun.
  - rewrite for_each_cons in Hrun.
    destruct (TextualFlow.resolve_row OL_PARENT GC self x) as [s1 |] eqn:Hx;
      [| done].
    rewrite (IH _ Hrun). unfold TextualFlow.resolve_row in Hx.
    destruct (get_parents _ _ _ _ _ _ _ _); [| done]. by inversion Hx.
Qed.

(** * The build as a process *)

(** ** One diagram and the loop over the thresholds *)

Lemma output_file_name_inj (variant_unit suffix : string) (c1 c2 : Z) :
  output_file_name variant_unit c1 suffix =
  output_file_name variant_unit c2 suffix → c1 = c2.
Proof.
  unfold output_file_name. intros Heq.
  apply string_append_inj_l, string_append_inj_l, string_append_inj_l in Heq.
  apply string_append_inj_r in Heq. by apply str_int_inj.
Qed.

Lemma draw_diagram_file {database : Type} (self : TextualFlow.t database)
      c data ws f G rm :
  TextualFlow.draw_diagram self c data ws = Ok (f, G, rm) →
  TextualFlow.output_files self !! c = Some f.
Proof.
  unfold TextualFlow.draw_diagram.
  destruct (for_each _ data _) as [st |]; [| done]. simpl.
  destruct (TextualFlow.output_files self !! c); [| done].
  intros H. by inversion H.
Qed.

Section ProcessRun.

Context {database : Type}.
Variable OL_PARENT : string.
Variable GC : database → string → string → result provider.
Variable select_cbgm : database → string → result (list row).
Variable write_dot : DiGraph → gmap string string → result unit.
Variable open_w : string → result unit.
Variable dot : DiGraph → gmap string string → result unit.

(** The outcomes of one call of [draw_diagram]: an exception before the
    output file is opened leaves the disk as it was, a failing [dot] leaves
    the file without a diagram. *)
Lemma process_draw_diagram_cases (self : TextualFlow.t database) c data ws d :
  Process.draw_diagram write_dot open_w dot self c data ws d =
  match TextualFlow.draw_diagram self c data ws with
  | Raise e => (Raise e, d)
  | Ok (f, G, rm) =>
      match write_dot G rm with
      | Raise e => (Raise e, d)
      | Ok _ =>
          match open_w f with
          | Raise e => (Raise e, d)
          | Ok _ =>
              match dot G rm with
              | Raise e => (Raise e, <[f := None]> d)
              | Ok _ => (Ok tt, <[f := Some (G, rm)]> d)
              end
          end
      end
  end.
Proof.
  unfold Process.draw_diagram, sbind, lift, update.
  destruct (TextualFlow.draw_diagram self c data ws) as [[[f G] rm] |];
    [| done].
  destruct (write_dot G rm); [| done]. destruct (open_w f); [| done].
  destruct (dot G rm); [| done]. by rewrite insert_insert_eq.
Qed.

Lemma process_draw_diagram_frame (self : TextualFlow.t database)
      c data ws d f g :
  TextualFlow.output_files self !! c = Some f → g ≠ f →
  (Process.draw_diagram write_dot open_w dot self c data ws d).2 !! g = d !! g.
Proof.
  intros Hf Hg. rewrite process_draw_diagram_cases.
  destruct (TextualFlow.draw_diagram self c data ws) as [[[f' G] rm] |] eqn:Hd;
    [| done].
  apply draw_diagram_file in Hd. assert (f' = f) as -> by congruence.
  destruct (write_dot G rm); [| done]. destruct (open_w f); [| done].
  destruct (dot G rm); simpl; by rewrite lookup_insert_ne.
Qed.

Lemma process_draw_all_frame (self : TextualFlow.t database)
      (name : Z → string) conns data ws d g :
  (∀ c, c ∈ conns → TextualFlow.output_files self !! c = Some (name c)) →
  (∀ c, c ∈ conns → g ≠ name c) →
  (sfor_each (λ c, Process.draw_diagram write_dot open_w dot self c data ws)
             conns d).2 !! g = d !! g.
Proof.
  revert d. induction conns as [| c rest IH]; intros d Hfiles Hg; [done |].
  simpl. unfold sbind.
  pose proof (process_draw_diagram_frame self c data ws d (name c) g
                (Hfiles c ltac:(by left)) (Hg c ltac:(by left))) as Hone.
  destruct (Process.draw_diagram write_dot open_w dot self c data ws d)
    as [[[] | e] d1]; simpl in Hone |- *; [| done].
  rewrite IH; [done | |].
  - intros c' Hc'. apply Hfiles. by right.
  - intros c' Hc'. apply Hg. by right.
Qed.

Lemma process_draw_all_ok (self : TextualFlow.t database)
      (name : Z → string) conns data ws d d' :
  (∀ c1 c2, name c1 = name c2 → c1 = c2) →
  (∀ c, c ∈ conns → TextualFlow.output_files self !! c = Some (name c)) →
  sfor_each (λ c, Process.draw_diagram write_dot open_w dot self c data ws)
            conns d = (Ok tt, d') →
  ∀ c, c ∈ conns →
    ∃ G rm, TextualFlow.draw_diagram self c data ws = Ok (name c, G, rm) ∧
            d' !! name c = Some (Some (G, rm)).
Proof.
  intros Hinj. revert d.
  induction conns as [| c0 rest IH]; intros d Hfiles Hrun c Hc.
  - by apply elem_of_nil in Hc.
  - simpl in Hrun. unfold sbind in Hrun.
    destruct (Process.draw_diagram write_dot open_w dot self c0 data ws d)
      as [[[] | e] d1] eqn:Hd; [| done].
    destruct (decide (c ∈ rest)) as [Hr | Hr].
    { apply (IH d1); [| done | done]. intros c' Hc'. apply Hfiles. by right. }
    apply elem_of_cons in Hc as [-> | Hc]; [| done].
    rewrite process_draw_diagram_cases in Hd.
    destruct (TextualFlow.draw_diagram self c0 data ws) as [[[f G] rm] |]
      eqn:Hg; [| done].
    pose proof (draw_diagram_file _ _ _ _ _ _ _ Hg) as Hf.
    rewrite (Hfiles c0 ltac:(by left)) in Hf. inversion Hf; subst f.
    destruct (write_dot G rm); [| done]. destruct (open_w (name c0)); [| done].
    destruct (dot G rm); [| done]. inversion Hd; subst d1.
    exists G, rm. split; [done |].
    pose proof (process_draw_all_frame self name rest data ws
                  (<[name c0 := Some (G, rm)]> d) (name c0)) as Hframe.
    rewrite Hrun in Hframe. simpl in Hframe. rewrite Hframe.
    + by rewrite lookup_insert_eq.
    + intros c' Hc'. apply Hfiles. by right.
    + intros c' Hc' Heq. apply Hinj in Heq. by subst c'.
Qed.

End ProcessRun.

(** ** Setting up a unit against the files on disk *)

Lemma absent_on_disk (d : disk) (variant_unit suffix : string) (c : Z) :
  artifact_absent (path_exists d) variant_unit suffix c ↔
  d !! output_file_name variant_unit c suffix = None.
Proof.
  unfold artifact_absent, path_exists.
  by rewrite bool_decide_eq_false, eq_None_not_Some.
Qed.

Lemma set_up_connectivity {database : Type} (d : disk) (db_file : database)
      variant_unit connectivity perfect_only suffix :
  TextualFlow.connectivity
    (Process.set_up d db_file variant_unit connectivity perfect_only suffix)
  = filter (artifact_absent (path_exists d) variant_unit suffix) connectivity.
Proof. unfold Process.set_up. simpl. by rewrite scan_outputs_connectivity. Qed.

Lemma set_up_files {database : Type} (d : disk) (db_file : database)
      variant_unit connectivity perfect_only suffix c :
  TextualFlow.output_files
    (Process.set_up d db_file variant_unit connectivity perfect_only suffix)
    !! c
  = if decide (c ∈ filter (artifact_absent (path_exists d) variant_unit suffix)
                          connectivity)
    then Some (output_file_name variant_unit c suffix)
    else None.
Proof. unfold Process.set_up. simpl. by rewrite scan_outputs_files. Qed.

Lemma set_up_named {database : Type} (d : disk) (db_file : database)
      variant_unit connectivity perfect_only suffix c :
  c ∈ TextualFlow.connectivity
        (Process.set_up d db_file variant_unit connectivity perfect_only suffix) →
  TextualFlow.output_files
    (Process.set_up d db_file variant_unit connectivity perfect_only suffix)
    !! c = Some (output_file_name variant_unit c suffix).
Proof.
  rewrite set_up_connectivity, set_up_files. intros Hin.
  by rewrite decide_True.
Qed.

Section ProcessInit.

Context {database : Type}.
Variable OL_PARENT : string.
Variables GC GC' : database → string → string → result provider.
Variable select_cbgm : database → string → result (list row).
Variable write_dot : DiGraph → gmap string string → result unit.
Variable open_w : string → result unit.
Variable dot : DiGraph → gmap string string → result unit.

Lemma process_resolve_row_fields (self self' : TextualFlow.t database) x :
  Process.resolve_row OL_PARENT GC self x = Ok self' →
  TextualFlow.output_files self' = TextualFlow.output_files self ∧
  TextualFlow.connectivity self' = TextualFlow.connectivity self ∧
  TextualFlow.db_file self' = TextualFlow.db_file self ∧
  TextualFlow.variant_unit self' = TextualFlow.variant_unit self ∧
  TextualFlow.perfect_only self' = TextualFlow.perfect_only self.
Proof.
  unfold Process.resolve_row.
  destruct (Process.get_parents _ _ _ _ _ _ _ _); [| done].
  simpl. intros H. by inversion H.
Qed.

Lemma process_resolve_rows_fields data (self self' : TextualFlow.t database) :
  for_each (Process.resolve_row OL_PARENT GC) data self = Ok self' →
  TextualFlow.output_files self' = TextualFlow.output_files self ∧
  TextualFlow.connectivity self' = TextualFlow.connectivity self ∧
  TextualFlow.perfect_only self' = TextualFlow.perfect_only self.
Proof.
  revert self. induction data as [| x data IH]; intros self Hrun.
  - by inversion Hrun.
  - rewrite for_each_cons in Hrun.
    destruct (Process.resolve_row OL_PARENT GC self x) as [s1 |] eqn:Hx;
      [| done].
    destruct (process_resolve_row_fields _ _ _ Hx) as (Ho & Hc & _ & _ & Hp).
    destruct (IH _ Hrun) as (Ho' & Hc' & Hp'). repeat split; congruence.
Qed.

Lemma process_resolve_rows_ext data (self : TextualFlow.t database) :
  (∀ w, same_answers (λ c, c ∈ TextualFlow.connectivity self)
          (GC (TextualFlow.db_file self) w (TextualFlow.variant_unit self))
          (GC' (TextualFlow.db_file self) w (TextualFlow.variant_unit self))) →
  for_each (Process.resolve_row OL_PARENT GC) data self =
  for_each (Process.resolve_row OL_PARENT GC') data self.
Proof.
  revert self. induction data as [| x data IH]; intros self Hagree.
  - done.
  - rewrite !for_each_cons.
    assert (Hx : Process.resolve_row OL_PARENT GC self x =
                 Process.resolve_row OL_PARENT GC' self x).
    { unfold Process.resolve_row, Process.get_parents.
      specialize (Hagree (row_witness x)). unfold same_answers in Hagree.
      destruct (GC _ _ _) as [coh | e], (GC' _ _ _) as [coh' | e'];
        try done; simpl; [| by subst].
      rewrite (get_parents_loop_ext OL_PARENT coh coh'); [done |].
      intros c Hin. by apply Hagree. }
    rewrite <- Hx.
    destruct (Process.resolve_row OL_PARENT GC self x) as [s1 |] eqn:Hs1;
      [| done].
    simpl. apply IH.
    destruct (process_resolve_row_fields _ _ _ Hs1) as (_ & Hc & Hd & Hv & _).
    rewrite Hc, Hd, Hv. exact Hagree.
Qed.

Lemma process_textual_flow_frame (self : TextualFlow.t database)
      (name : Z → string) d g :
  (∀ c, c ∈ TextualFlow.connectivity self →
        TextualFlow.output_files self !! c = Some (name c)) →
  (∀ c, c ∈ TextualFlow.connectivity self → g ≠ name c) →
  (Process.textual_flow OL_PARENT GC select_cbgm write_dot open_w dot self d).2
    !! g = d !! g.
Proof.
  intros Hfiles Hg. unfold Process.textual_flow, sbind, lift.
  destruct (select_cbgm _ _) as [data |]; [| done].
  destruct (styled_all data) as [ws |]; [| done].
  destruct (for_each _ data self) as [self' |] eqn:Hres; [| done].
  destruct (process_resolve_rows_fields _ _ _ Hres) as (Ho & Hc & _).
  apply process_draw_all_frame with (name := name); rewrite Hc; [| done].
  intros c Hin. rewrite Ho. by apply Hfiles.
Qed.

Lemma process_textual_flow_ok (self : TextualFlow.t database) d d' :
  Process.textual_flow OL_PARENT GC select_cbgm write_dot open_w dot self d
    = (Ok tt, d') →
  ∃ data ws self',
    select_cbgm (TextualFlow.db_file self) (TextualFlow.variant_unit self)
      = Ok data ∧
    styled_all data = Ok ws ∧
    for_each (Process.resolve_row OL_PARENT GC) data self = Ok self' ∧
    sfor_each (λ c, Process.draw_diagram write_dot open_w dot self' c data ws)
              (TextualFlow.connectivity self') d = (Ok tt, d').
Proof.
  unfold Process.textual_flow, sbind, lift.
  destruct (select_cbgm _ _) as [data |]; [| done].
  destruct (styled_all data) as [ws |] eqn:Hws; [| done].
  destruct (for_each _ data self) as [self' |] eqn:Hres; [| done].
  intros Hrun. by exists data, ws, self'.
Qed.

(** A unit all of whose artifacts exist is left alone, whatever the
    collaborators would do. *)
Lemma process_init_nothing_to_do (d : disk) (db_file : database)
      variant_unit connectivity perfect_only suffix :
  (∀ c, c ∈ connectivity →
        is_Some (d !! output_file_name variant_unit c suffix)) →
  Process.init OL_PARENT GC select_cbgm write_dot open_w dot
    db_file variant_unit connectivity perfect_only suffix d = (Ok tt, d).
Proof.
  intros Hall. unfold Process.init.
  rewrite decide_True; [done |].
  apply map_eq. intros c. rewrite set_up_files, lookup_empty.
  rewrite decide_False; [done |].
  intros Hin. apply list_elem_of_filter in Hin as [Habs Hin].
  apply absent_on_disk in Habs. destruct (Hall c Hin) as (v & Hv). congruence.
Qed.

(** Whatever the outcome, a path that is not the artifact of a requested
    threshold that was absent holds afterwards what it held before. *)
Lemma process_init_frame (d : disk) (db_file : database)
      variant_unit connectivity perfect_only suffix g :
  (∀ c, c ∈ connectivity →
        d !! output_file_name variant_unit c suffix = None →
        g ≠ output_file_name variant_unit c suffix) →
  (Process.init OL_PARENT GC select_cbgm write_dot open_w dot
     db_file variant_unit connectivity perfect_only suffix d).2 !! g = d !! g.
Proof.
  intros Hg. unfold Process.init.
  destruct (decide _) as [_ | _]; [done |].
  apply process_textual_flow_frame
    with (name := λ c, output_file_name variant_unit c suffix).
  - intros c. apply set_up_named.
  - intros c. rewrite set_up_connectivity. intros Hin.
    apply list_elem_of_filter in Hin as [Habs Hin].
    apply Hg; [done |]. by apply absent_on_disk.
Qed.

(** When the build of a unit returns, every requested artifact that was
    absent holds the diagram built for its threshold. *)
Lemma process_init_ok (d d' : disk) (db_file : database)
      variant_unit connectivity perfect_only suffix :
  Process.init OL_PARENT GC select_cbgm write_dot open_w dot
    db_file variant_unit connectivity perfect_only suffix d = (Ok tt, d') →
  ∀ c, c ∈ connectivity →
    d !! output_file_name variant_unit c suffix = None →
    ∃ data ws self' G rm,
      select_cbgm db_file variant_unit = Ok data ∧
      styled_all data = Ok ws ∧
      for_each (Process.resolve_row OL_PARENT GC) data
        (Process.set_up d db_file variant_unit connectivity perfect_only suffix)
        = Ok self' ∧
      TextualFlow.draw_diagram self' c data ws
        = Ok (output_file_name variant_unit c suffix, G, rm) ∧
      d' !! output_file_name variant_unit c suffix = Some (Some (G, rm)).
Proof.
  intros Hrun c Hc Habs. unfold Process.init in Hrun.
  set (self := Process.set_up d db_file variant_unit connectivity
                 perfect_only suffix) in *.
  assert (Hin : c ∈ TextualFlow.connectivity self).
  { unfold self. rewrite set_up_connectivity. apply list_elem_of_filter.
    split; [by apply absent_on_disk | done]. }
  destruct (decide (TextualFlow.output_files self = ∅)) as [Hempty | _].
  { pose proof (set_up_named d db_file variant_unit connectivity perfect_only
                  suffix c Hin) as Hf.
    fold self in Hf. rewrite Hempty, lookup_empty in Hf. done. }
  destruct (process_textual_flow_ok _ _ _ Hrun)
    as (data & ws & self' & Hdata & Hws & Hres & Hdraw).
  destruct (process_resolve_rows_fields _ _ _ Hres) as (Ho & Hc' & _).
  assert (Hnamed : ∀ c', c' ∈ TextualFlow.connectivity self' →
            TextualFlow.output_files self' !! c'
            = Some (output_file_name variant_unit c' suffix)).
  { rewrite Hc'. intros c' Hin'. rewrite Ho. by apply set_up_named. }
  rewrite <- Hc' in Hin.
  destruct (process_draw_all_ok write_dot open_w dot self'
              (λ c, output_file_name variant_unit c suffix)
              (TextualFlow.connectivity self') data ws d d'
              (output_file_name_inj variant_unit suffix) Hnamed Hdraw c Hin)
    as (G & rm & HG & Hd').
  by exists data, ws, self', G, rm.
Qed.

End ProcessInit.

(** ** Skipping artifacts that exist *)

Section ArtifactCache.

Context {database : Type}.
Variable OL_PARENT : string.
Variables GC GC' : database → string → string → result provider.
Variable select_cbgm : database → string → result (list row).
Variable write_dot : DiGraph → gmap string string → result unit.
Variable open_w : string → result unit.
Variable dot : DiGraph → gmap string string → result unit.

(** C9: the build of one variant unit against the files on disk, where the
    artifact of threshold [c] is the path
    "textual_flow_<unit, '/' as '_'>_c<c><suffix>.svg".
    - When every requested artifact exists the build returns at once and
      leaves the disk as it is, whatever the collaborators would do.
    - The build does not depend on what the provider answers at a threshold
      whose artifact exists: no selection is computed for it.
    - Whatever the outcome, a requested artifact that exists holds
      afterwards what it held before, and so does every path that is not the
      artifact of a requested threshold that was absent.
    - When the build returns, each requested threshold whose artifact was
      absent has been processed: its artifact now holds the diagram that
      [draw_diagram] built for it from the selections of this build. *)
Theorem existing_artifacts_are_skipped (d : disk) (db_file : database)
        (variant_unit : string) (connectivity : list Z)
        (perfect_only : bool) (suffix : string) :
  let name := λ c, output_file_name variant_unit c suffix in
  let build := Process.init OL_PARENT GC select_cbgm write_dot open_w dot
                 db_file variant_unit connectivity perfect_only suffix in
  ((∀ c, c ∈ connectivity → is_Some (d !! name c)) → build d = (Ok tt, d)) ∧
  ((∀ w, same_answers (λ c, c ∈ connectivity ∧ d !! name c = None)
           (GC db_file w variant_unit) (GC' db_file w variant_unit)) →
   Process.init OL_PARENT GC' select_cbgm write_dot open_w dot
     db_file variant_unit connectivity perfect_only suffix d = build d) ∧
  (∀ c, c ∈ connectivity → is_Some (d !! name c) →
        (build d).2 !! name c = d !! name c) ∧
  (∀ f, (∀ c, c ∈ connectivity → d !! name c = None → f ≠ name c) →
        (build d).2 !! f = d !! f) ∧
  (∀ d', build d = (Ok tt, d') →
     ∀ c, c ∈ connectivity → d !! name c = None →
       ∃ data witnesses self' G rank_mapping,
         select_cbgm db_file variant_unit = Ok data ∧
         styled_all data = Ok witnesses ∧
         for_each (Process.resolve_row OL_PARENT GC) data
           (Process.set_up d db_file variant_unit connectivity perfect_only
              suffix) = Ok self' ∧
         TextualFlow.draw_diagram self' c data witnesses
           = Ok (name c, G, rank_mapping) ∧
         d' !! name c = Some (Some (G, rank_mapping))).
Proof.
  intros name build.
  split; [apply process_init_nothing_to_do |].
  split.
  { intros Hagree. unfold build, Process.init.
    destruct (decide _) as [_ | _]; [done |].
    unfold Process.textual_flow, sbind, lift. simpl.
    destruct (select_cbgm db_file variant_unit) as [data |]; [| done].
    destruct (styled_all data) as [ws |]; [| done].
    rewrite (process_resolve_rows_ext OL_PARENT GC GC'); [done |].
    intros w. rewrite set_up_connectivity. simpl.
    specialize (Hagree w). unfold same_answers in *.
    destruct (GC db_file w variant_unit), (GC' db_file w variant_unit);
      try done.
    intros r p c Hin. apply list_elem_of_filter in Hin as [Habs Hin].
    apply Hagree. split; [done |]. by apply absent_on_disk. }
  split.
  { intros c Hc (v & Hv). apply process_init_frame.
    intros c' Hc' Habs Heq. apply output_file_name_inj in Heq. subst c'.
    unfold name in Hv. congruence. }
  split; [intros f; apply process_init_frame |].
  intros d' Hrun c Hc Habs.
  by apply (process_init_ok OL_PARENT GC select_cbgm write_dot open_w dot
              d d' db_file variant_unit connectivity perfect_only suffix).
Qed.

End ArtifactCache.

Lemma existing_artifacts_are_skipped_witness :
  let build := λ coh,
    Process.init "OL_PARENT" (Scenario.builds coh)
      (Scenario.answers Scenario.rows_abc) Scenario.writes Scenario.opens
      Scenario.writes tt "1/1" [3; 5] false "" Scenario.disk_c3 in
  build Scenario.coh_raising_at_3 = build Scenario.coh_abc ∧
  (build Scenario.coh_abc).1 = Ok tt ∧
  (build Scenario.coh_abc).2 !! "textual_flow_1_1_c3.svg" = Some None ∧
  ∃ G rank_mapping,
    (build Scenario.coh_abc).2 !! "textual_flow_1_1_c5.svg"
    = Some (Some (G, rank_mapping)).
Proof.
  intros build.
  destruct (existing_artifacts_are_skipped "OL_PARENT"
              (Scenario.builds Scenario.coh_abc)
              (Scenario.builds Scenario.coh_raising_at_3)
              (Scenario.answers Scenario.rows_abc) Scenario.writes
              Scenario.opens Scenario.writes Scenario.disk_c3 tt "1/1" [3; 5]
              false "") as (_ & Hsame & Hkept & _ & Hwritten).
  assert (Hrun : (build Scenario.coh_abc).1 = Ok tt) by (by vm_compute).
  split.
  { apply Hsame. intros w r p c [Hin Habs].
    apply elem_of_cons in Hin as [-> | Hin]; [by vm_compute in Habs |].
    apply elem_of_cons in Hin as [-> | Hin]; [reflexivity |].
    by apply elem_of_nil in Hin. }
  split; [done |].
  split.
  { apply (Hkept 3); [by left | by eexists]. }
  destruct (Hwritten (build Scenario.coh_abc).2) with (c := 5)
    as (data & ws & self' & G & rm & _ & _ & _ & _ & Hfile).
  - unfold build in *.
    destruct (Process.init _ _ _ _ _ _ _ _ _ _ _ _) as [r d'].
    simpl in Hrun |- *. by rewrite Hrun.
  - right. left.
  - by vm_compute.
  - by exists G, rm.
Defined.

(** ** [get_parents] as a whole *)

(** X1: [get_parents] raises exactly when building the coherence object
    raises, and then with that exception: the constructor and [_generate]
    are called outside the [try].  Once the object is built the call
    returns: [None] exactly when the provider raises at one of the
    thresholds, and otherwise a map whose keys are exactly the thresholds
    asked for, each with a selection. *)
Theorem get_parents_raises_only_at_construction (OL_PARENT : string)
        {database : Type} (GC : database → string → string → result provider)
        (w1 w1_reading : string) (w1_parent : option string)
        (variant_unit : string) (connectivity : list Z) (db_file : database) :
  match GC db_file w1 variant_unit with
  | Raise e =>
      Process.get_parents OL_PARENT GC w1 w1_reading w1_parent variant_unit
        connectivity db_file = Raise e
  | Ok coh =>
      ∃ r, Process.get_parents OL_PARENT GC w1 w1_reading w1_parent
             variant_unit connectivity db_file = Ok r ∧
           (r = None ↔
            ∃ c, c ∈ connectivity ∧ coh w1_reading w1_parent c = None) ∧
           (∀ m, r = Some m →
              ∀ c, (c ∈ connectivity → ∃ sel, m !! c = Some (Some sel)) ∧
                   (c ∉ connectivity → m !! c = None))
  end.
Proof.
  unfold Process.get_parents.
  destruct (GC db_file w1 variant_unit) as [coh | e]; simpl; [| done].
  destruct (get_parents_loop_returns OL_PARENT coh w1_reading w1_parent
              connectivity fresh_trackers [] ∅ tracked_fresh)
    as (r & Hr & Hnone).
  exists r. split; [done |]. split; [done |].
  intros m ->.
  destruct (get_parents_loop_keys _ _ _ _ _ _ _ _ Hr) as (Hin & Hout).
  intros c. split; [apply Hin |].
  intros Hc. by rewrite (Hout c Hc), lookup_empty.
Qed.

(** ** Builds that reach the renderer *)

Lemma requested_artifacts_dom (d : disk) (variant_unit suffix : string)
      (connectivity : list Z) :
  dom d ∪ list_to_set
            ((λ c, output_file_name variant_unit c suffix) <$>
               filter (artifact_absent (path_exists d) variant_unit suffix)
                      connectivity)
  = dom d ∪ list_to_set
              ((λ c, output_file_name variant_unit c suffix) <$> connectivity).
Proof.
  apply set_eq. intros f.
  rewrite !elem_of_union, !elem_of_list_to_set, !list_elem_of_fmap.
  split; intros [Hd | (c & -> & Hc)]; try (by left).
  - apply list_elem_of_filter in Hc as [_ Hc]. right. by exists c.
  - destruct (decide (artifact_absent (path_exists d) variant_unit suffix c))
      as [Habs | Hex].
    + right. exists c. split; [done |]. by apply list_elem_of_filter.
    + left. apply elem_of_dom.
      destruct (d !! output_file_name variant_unit c suffix) eqn:Hl;
        [by eexists |].
      destruct Hex. by apply absent_on_disk.
Qed.

Section ProcessCompletes.

Context {database : Type}.
Variable OL_PARENT : string.
Variable GC : database → string → string → result provider.
Variable select_cbgm : database → string → result (list row).
Variable write_dot : DiGraph → gmap string string → result unit.
Variable open_w : string → result unit.
Variable dot : DiGraph → gmap string string → result unit.

(** Where every coherence object is built, step 1 is the step 1 of the
    build that takes the objects as given. *)
Lemma process_resolve_rows_built data (self : TextualFlow.t database) :
  (∀ x, x ∈ data →
     ∃ coh, GC (TextualFlow.db_file self) (row_witness x)
               (TextualFlow.variant_unit self) = Ok coh) →
  for_each (Process.resolve_row OL_PARENT GC) data self =
  for_each (TextualFlow.resolve_row OL_PARENT (λ db w vu, built (GC db w vu)))
           data self.
Proof.
  revert self. induction data as [| x data IH]; intros self Hb; [done |].
  rewrite !for_each_cons.
  assert (Hx : Process.resolve_row OL_PARENT GC self x =
               TextualFlow.resolve_row OL_PARENT
                 (λ db w vu, built (GC db w vu)) self x).
  { unfold Process.resolve_row, TextualFlow.resolve_row,
      Process.get_parents, get_parents.
    by destruct (Hb x ltac:(by left)) as (coh & ->). }
  rewrite Hx.
  destruct (TextualFlow.resolve_row _ _ self x) as [s1 |] eqn:Hs1; [| done].
  simpl. apply IH.
  destruct (resolve_row_fields _ _ _ _ _ Hs1) as (_ & _ & Hd & Hv).
  rewrite Hd, Hv. intros y Hy. apply Hb. by right.
Qed.

(** A build whose rows are read, styled and resolved goes on to draw. *)
Lemma process_textual_flow_draws (self : TextualFlow.t database) data d :
  select_cbgm (TextualFlow.db_file self) (TextualFlow.variant_unit self)
    = Ok data →
  (∀ x, x ∈ data → row_label x ≠ "") →
  (∀ x, x ∈ data →
     ∃ coh, GC (TextualFlow.db_file self) (row_witness x)
               (TextualFlow.variant_unit self) = Ok coh ∧
            ∀ c, c ∈ TextualFlow.connectivity self →
                 coh (row_label x) (row_parent x) c ≠ None) →
  ∃ ws (self' : TextualFlow.t database),
    Process.textual_flow OL_PARENT GC select_cbgm write_dot open_w dot self d
    = sfor_each (λ c, Process.draw_diagram write_dot open_w dot self' c data ws)
                (TextualFlow.connectivity self) d ∧
    TextualFlow.output_files self' = TextualFlow.output_files self ∧
    TextualFlow.perfect_only self' = TextualFlow.perfect_only self ∧
    ∀ x c, x ∈ data → c ∈ TextualFlow.connectivity self →
      ∃ p, TextualFlow.lookup_parents self' (row_witness x) c = Ok p.
Proof.
  intros Hsel Hlab Hprov. unfold Process.textual_flow, sbind, lift.
  rewrite Hsel. destruct (styled_all_returns _ Hlab) as (ws & ->).
  rewrite process_resolve_rows_built
    by (intros x Hx; destruct (Hprov x Hx) as (coh & Hcoh & _); by exists coh).
  destruct (resolve_rows_resolved OL_PARENT (λ db w vu, built (GC db w vu))
              data self) as (self' & -> & Ho & Hc & Hp & Hres).
  { intros x c Hx Hc. destruct (Hprov x Hx) as (coh & -> & Hans).
    by apply Hans. }
  exists ws, self'. rewrite Hc. split; [done |]. split; [done |].
  split; [done |].
  intros x c Hx Hin.
  apply (lookup_parents_resolved self' (TextualFlow.connectivity self));
    [| done].
  apply Hres. left. apply list_elem_of_fmap. by exists x.
Qed.

Lemma process_draw_all_returns (self : TextualFlow.t database)
      (name : Z → string) conns data ws d :
  (∀ G rm, write_dot G rm = Ok tt) →
  (∀ f, open_w f = Ok tt) →
  (∀ G rm, dot G rm = Ok tt) →
  (∀ c, c ∈ conns → TextualFlow.output_files self !! c = Some (name c)) →
  (∀ c, c ∈ conns → ∃ a, TextualFlow.draw_diagram self c data ws = Ok a) →
  ∃ d', sfor_each (λ c, Process.draw_diagram write_dot open_w dot self c data ws)
                  conns d = (Ok tt, d') ∧
        dom d' = dom d ∪ list_to_set (name <$> conns).
Proof.
  intros Hw Ho Hd. revert d.
  induction conns as [| c rest IH]; intros d Hfiles Hret.
  - exists d. split; [done |]. set_solver.
  - destruct (Hret c ltac:(by left)) as ([[f G] rm] & Ha).
    pose proof (draw_diagram_file _ _ _ _ _ _ _ Ha) as Hf.
    rewrite (Hfiles c ltac:(by left)) in Hf. inversion Hf; subst f.
    destruct (IH (<[name c := Some (G, rm)]> d)) as (d' & Hrun & Hdom).
    { intros c' Hc'. apply Hfiles. by right. }
    { intros c' Hc'. apply Hret. by right. }
    exists d'. split.
    + simpl. unfold sbind.
      by rewrite process_draw_diagram_cases, Ha, Hw, Ho, Hd.
    + rewrite Hdom, dom_insert_L, fmap_cons, list_to_set_cons. set_solver.
Qed.

End ProcessCompletes.

(** X7: a unit built without [perfect_only] completes when the query
    returns rows with non-empty labels, the coherence object of every row is
    built and answers at every requested threshold whose artifact is absent,
    and the three steps of the renderer return.  Afterwards every requested
    artifact exists, and no other path has appeared. *)
Theorem non_strict_build_completes (OL_PARENT : string) {database : Type}
        (GC : database → string → string → result provider)
        (select_cbgm : database → string → result (list row))
        (write_dot : DiGraph → gmap string string → result unit)
        (open_w : string → result unit)
        (dot : DiGraph → gmap string string → result unit)
        (d : disk) (db_file : database) (variant_unit : string)
        (connectivity : list Z) (suffix : string) (data : list row) :
  select_cbgm db_file variant_unit = Ok data →
  (∀ x, x ∈ data → row_label x ≠ "") →
  (∀ x, x ∈ data →
     ∃ coh, GC db_file (row_witness x) variant_unit = Ok coh ∧
            ∀ c, c ∈ connectivity →
                 d !! output_file_name variant_unit c suffix = None →
                 coh (row_label x) (row_parent x) c ≠ None) →
  (∀ G rm, write_dot G rm = Ok tt) →
  (∀ f, open_w f = Ok tt) →
  (∀ G rm, dot G rm = Ok tt) →
  ∃ d', Process.init OL_PARENT GC select_cbgm write_dot open_w dot
          db_file variant_unit connectivity false suffix d = (Ok tt, d') ∧
        dom d' = dom d ∪ list_to_set
                   ((λ c, output_file_name variant_unit c suffix) <$>
                      connectivity).
Proof.
  intros Hsel Hlab Hprov Hw Ho Hd. unfold Process.init.
  rewrite <- requested_artifacts_dom.
  pose proof (set_up_connectivity d db_file variant_unit connectivity false
                suffix) as Hconn.
  pose proof (set_up_named d db_file variant_unit connectivity false suffix)
    as Hnamed.
  set (self := Process.set_up d db_file variant_unit connectivity false suffix)
    in *.
  destruct (decide (TextualFlow.output_files self = ∅)) as [Hempty | _].
  - exists d. split; [done |]. rewrite <- Hconn.
    destruct (TextualFlow.connectivity self) as [| c l]; [set_solver |].
    specialize (Hnamed c ltac:(by left)).
    rewrite Hempty, lookup_empty in Hnamed. done.
  - destruct (process_textual_flow_draws OL_PARENT GC select_cbgm write_dot
                open_w dot self data d Hsel Hlab)
      as (ws & self' & -> & Hof & Hp & Hlk).
    { intros x Hx. destruct (Hprov x Hx) as (coh & Hcoh & Hans).
      exists coh. split; [done |]. rewrite Hconn. intros c Hc.
      apply list_elem_of_filter in Hc as [Habs Hc].
      apply Hans; [done |]. by apply absent_on_disk. }
    rewrite <- Hconn.
    apply (process_draw_all_returns write_dot open_w dot self'
             (λ c, output_file_name variant_unit c suffix)); try done.
    + intros c Hc. rewrite Hof. by apply Hnamed.
    + intros c Hc. apply draw_diagram_returns.
      * by rewrite Hp.
      * rewrite Hof, (Hnamed c Hc). by eexists.
      * intros x Hx. by apply Hlk.
Qed.

Lemma non_strict_build_completes_witness :
  ∃ d', Process.init "OL_PARENT" (Scenario.builds Scenario.coh_raising_at_3)
          (Scenario.answers Scenario.rows_abc) Scenario.writes Scenario.opens
          Scenario.writes tt "1/1" [3; 5] false "" Scenario.disk_c3
        = (Ok tt, d') ∧
        dom d' = dom Scenario.disk_c3 ∪ list_to_set
                   ((λ c, output_file_name "1/1" c "") <$> [3; 5]).
Proof.
  apply (non_strict_build_completes "OL_PARENT"
           (Scenario.builds Scenario.coh_raising_at_3)
           (Scenario.answers Scenario.rows_abc) Scenario.writes Scenario.opens
           Scenario.writes Scenario.disk_c3 tt "1/1" [3; 5] ""
           (Scenario.rows_abc tt "1/1")); try done.
  - intros x Hin.
    apply elem_of_cons in Hin as [-> | Hin]; [done |].
    apply elem_of_cons in Hin as [-> | Hin]; [done |].
    apply elem_of_cons in Hin as [-> | Hin]; [done |].
    by apply elem_of_nil in Hin.
  - intros x Hx. eexists. split; [reflexivity |].
    intros c Hc Habs.
    apply elem_of_cons in Hc as [-> | Hc]; [by vm_compute in Habs |].
    apply elem_of_cons in Hc as [-> | Hc]; [| by apply elem_of_nil in Hc].
    apply elem_of_cons in Hx as [-> | Hx]; [done |].
    apply elem_of_cons in Hx as [-> | Hx]; [done |].
    apply elem_of_cons in Hx as [-> | Hx]; [done |].
    by apply elem_of_nil in Hx.
Defined.

(** X13: in a build without [perfect_only], of a unit with distinct witness
    ids and non-empty labels whose coherence objects are all built, a
    provider that raises for some row at some requested threshold whose
    artifact is absent makes the build raise [TypeError] with the disk as it
    was: no artifact is written for the unit, not even for the other
    thresholds, whatever the renderer would do. *)
Theorem provider_failure_raises_type_error (OL_PARENT : string)
        {database : Type}
        (GC : database → string → string → result provider)
        (select_cbgm : database → string → result (list row))
        (write_dot : DiGraph → gmap string string → result unit)
        (open_w : string → result unit)
        (dot : DiGraph → gmap string string → result unit)
        (d : disk) (db_file : database) (variant_unit : string)
        (connectivity : list Z) (suffix : string) (data : list row)
        (x : row) (coh : provider) (c0 : Z) :
  select_cbgm db_file variant_unit = Ok data →
  NoDup (row_witness <$> data) →
  (∀ y, y ∈ data → row_label y ≠ "") →
  (∀ y, y ∈ data → ∃ coh', GC db_file (row_witness y) variant_unit = Ok coh') →
  x ∈ data →
  GC db_file (row_witness x) variant_unit = Ok coh →
  c0 ∈ connectivity →
  d !! output_file_name variant_unit c0 suffix = None →
  coh (row_label x) (row_parent x) c0 = None →
  Process.init OL_PARENT GC select_cbgm write_dot open_w dot
    db_file variant_unit connectivity false suffix d = (Raise TypeError, d).
Proof.
  intros Hsel Hnd Hlab Hbuilt Hx Hcoh Hc0 Habs Hfail. unfold Process.init.
  pose proof (set_up_connectivity d db_file variant_unit connectivity false
                suffix) as Hconn.
  pose proof (set_up_named d db_file variant_unit connectivity false suffix)
    as Hnamed.
  set (self := Process.set_up d db_file variant_unit connectivity false suffix)
    in *.
  assert (Hdb : TextualFlow.db_file self = db_file) by done.
  assert (Hvu : TextualFlow.variant_unit self = variant_unit) by done.
  assert (Hpo : TextualFlow.perfect_only self = false) by done.
  clearbody self.
  assert (Hin0 : c0 ∈ TextualFlow.connectivity self).
  { rewrite Hconn. apply list_elem_of_filter.
    split; [by apply absent_on_disk | done]. }
  rewrite decide_False.
  2: { intros Hempty. specialize (Hnamed c0 Hin0).
       rewrite Hempty, lookup_empty in Hnamed. done. }
  unfold Process.textual_flow, sbind, lift.
  rewrite Hdb, Hvu, Hsel. destruct (styled_all_returns _ Hlab) as (ws & ->).
  rewrite process_resolve_rows_built by (by rewrite Hdb, Hvu).
  destruct (resolved_lookup OL_PARENT (λ db w vu, built (GC db w vu))
              data self Hnd) as (self' & Hrun & Hrows & _).
  rewrite Hrun.
  destruct (resolve_rows_fields _ _ _ _ _ Hrun) as (Ho & Hc).
  pose proof (resolve_rows_perfect_only _ _ _ _ _ Hrun) as Hp.
  rewrite Hpo in Hp. rewrite Hc.
  destruct (TextualFlow.connectivity self) as [| c1 cs] eqn:Hf;
    [by apply elem_of_nil in Hin0 |].
  simpl. unfold sbind. rewrite process_draw_diagram_cases.
  unfold TextualFlow.draw_diagram.
  rewrite (draw_rows_type_error self' c1 data _ Hp); [done | |].
  - intros y Hy. destruct (Hrows y Hy) as (r & Hr & Hlk).
    unfold TextualFlow.lookup_parents. rewrite Hlk.
    destruct r as [m |]; [left | by right].
    simpl in Hr. unfold get_parents in Hr.
    destruct (get_parents_loop_keys _ _ _ _ _ _ _ _ Hr) as (Hkeys & _).
    destruct (Hkeys c1) as (sel & ->).
    + rewrite Hf. by left.
    + by exists sel.
  - exists x. split; [done |].
    destruct (Hrows x Hx) as (r & Hr & Hlk).
    unfold TextualFlow.lookup_parents. rewrite Hlk.
    destruct r as [m |]; [| done].
    simpl in Hr. unfold get_parents in Hr.
    rewrite Hdb, Hvu, Hcoh, Hf in Hr. simpl built in Hr.
    destruct (get_parents_loop_returns OL_PARENT coh
                (row_label x) (row_parent x) (c1 :: cs)
                fresh_trackers [] ∅ tracked_fresh) as (r' & Hr' & Hnone).
    rewrite Hr in Hr'. inversion Hr'; subst r'.
    assert (Some m = None) as Hbad; [| done].
    apply Hnone. by exists c0.
Qed.

Lemma provider_failure_raises_type_error_witness :
  Process.init "OL_PARENT" (Scenario.builds Scenario.coh_failing)
    (Scenario.answers Scenario.rows_abc) Scenario.writes Scenario.opens
    Scenario.writes tt "1/1" [3; 5] false "" ∅ = (Raise TypeError, ∅).
Proof.
  apply (provider_failure_raises_type_error "OL_PARENT"
           (Scenario.builds Scenario.coh_failing)
           (Scenario.answers Scenario.rows_abc) Scenario.writes Scenario.opens
           Scenario.writes ∅ tt "1/1" [3; 5] "" (Scenario.rows_abc tt "1/1")
           ("B", "b", Some "A") (Scenario.coh_failing tt "B" "1/1") 5).
  - reflexivity.
  - repeat constructor; set_solver.
  - intros y Hin.
    apply elem_of_cons in Hin as [-> | Hin]; [done |].
    apply elem_of_cons in Hin as [-> | Hin]; [done |].
    apply elem_of_cons in Hin as [-> | Hin]; [done |].
    by apply elem_of_nil in Hin.
  - intros y _. by eexists.
  - right. left.
  - reflexivity.
  - right. left.
  - reflexivity.
  - reflexivity.
Defined.

(** ** Building a unit again *)

(** X14: once the build of a unit has returned, every requested artifact
    exists, so building the unit again for the same thresholds and suffix
    returns at once and leaves the disk as it is, whatever the database,
    the provider and the renderer would do this time. *)
Theorem completed_build_is_idempotent (OL_PARENT : string) {database : Type}
        (GC GC' : database → string → string → result provider)
        (select_cbgm select_cbgm' : database → string → result (list row))
        (write_dot write_dot' : DiGraph → gmap string string → result unit)
        (open_w open_w' : string → result unit)
        (dot dot' : DiGraph → gmap string string → result unit)
        (d d' : disk) (db_file db_file' : database) (variant_unit : string)
        (connectivity : list Z) (perfect_only perfect_only' : bool)
        (suffix : string) :
  Process.init OL_PARENT GC select_cbgm write_dot open_w dot
    db_file variant_unit connectivity perfect_only suffix d = (Ok tt, d') →
  Process.init OL_PARENT GC' select_cbgm' write_dot' open_w' dot'
    db_file' variant_unit connectivity perfect_only' suffix d' = (Ok tt, d').
Proof.
  intros Hrun. apply process_init_nothing_to_do. intros c Hc.
  destruct (d !! output_file_name variant_unit c suffix) as [v |] eqn:Hl.
  - pose proof (process_init_frame OL_PARENT GC select_cbgm write_dot open_w
                  dot d db_file variant_unit connectivity perfect_only suffix
                  (output_file_name variant_unit c suffix)) as Hframe.
    rewrite Hrun in Hframe. simpl in Hframe. rewrite Hframe, Hl; [by eexists |].
    intros c' Hc' Habs Heq. apply output_file_name_inj in Heq. subst c'.
    congruence.
  - destruct (process_init_ok OL_PARENT GC select_cbgm write_dot open_w dot
                d d' db_file variant_unit connectivity perfect_only suffix
                Hrun c Hc Hl) as (? & ? & ? & G & rm & _ & _ & _ & _ & ->).
    by eexists.
Qed.

Lemma completed_build_is_idempotent_witness :
  let d' := (Process.init "OL_PARENT" (Scenario.builds Scenario.coh_abc)
               (Scenario.answers Scenario.rows_abc) Scenario.writes
               Scenario.opens Scenario.writes tt "1/1" [3; 5] false ""
               Scenario.disk_c3).2 in
  Process.init "OL_PARENT" (Scenario.builds Scenario.coh_failing)
    (Scenario.answers Scenario.rows_orphan) Scenario.writes Scenario.opens
    Scenario.no_dot tt "1/1" [3; 5] true "" d' = (Ok tt, d').
Proof.
  intros d'.
  apply (completed_build_is_idempotent "OL_PARENT"
           (Scenario.builds Scenario.coh_abc)
           (Scenario.builds Scenario.coh_failing)
           (Scenario.answers Scenario.rows_abc)
           (Scenario.answers Scenario.rows_orphan)
           Scenario.writes Scenario.writes Scenario.opens Scenario.opens
           Scenario.writes Scenario.no_dot Scenario.disk_c3 d' tt tt "1/1"
           [3; 5] false true "").
  unfold d'.
  assert (Hr : (Process.init "OL_PARENT" (Scenario.builds Scenario.coh_abc)
                  (Scenario.answers Scenario.rows_abc) Scenario.writes
                  Scenario.opens Scenario.writes tt "1/1" [3; 5] false ""
                  Scenario.disk_c3).1 = Ok tt) by (by vm_compute).
  destruct (Process.init _ _ _ _ _ _ _ _ _ _ _ _) as [r d1].
  simpl in Hr |- *. by rewrite Hr.
Defined.

Lemma first_absent_threshold (d : disk) (variant_unit suffix : string)
      (pre post : list Z) (c1 : Z) :
  (∀ c, c ∈ pre → is_Some (d !! output_file_name variant_unit c suffix)) →
  d !! output_file_name variant_unit c1 suffix = None →
  filter (artifact_absent (path_exists d) variant_unit suffix)
         (pre ++ c1 :: post)
  = c1 :: filter (artifact_absent (path_exists d) variant_unit suffix) post.
Proof.
  intros Hpre Habs. induction pre as [| c pre IH]; simpl.
  - rewrite filter_cons_True; [done |]. by apply absent_on_disk.
  - rewrite filter_cons_False.
    + apply IH. intros c' Hc'. apply Hpre. by right.
    + intros Hc. apply absent_on_disk in Hc.
      destruct (Hpre c ltac:(by left)) as (v & Hv). congruence.
Qed.

(** X15: the output file is opened for writing before [dot] runs.  In a
    build without [perfect_only] that reaches the renderer, with a [dot]
    that raises, the build ends with [dot]'s exception at the first requested
    threshold whose artifact is absent, and leaves that artifact on disk
    without a diagram.  Since the file exists, no later build of the unit
    with this suffix draws it: whatever the thresholds and collaborators of
    a later build, the artifact is still without a diagram afterwards. *)
Theorem failed_dot_leaves_empty_artifact (OL_PARENT : string) {database : Type}
        (GC GC' : database → string → string → result provider)
        (select_cbgm select_cbgm' : database → string → result (list row))
        (write_dot write_dot' : DiGraph → gmap string string → result unit)
        (open_w open_w' : string → result unit)
        (dot dot' : DiGraph → gmap string string → result unit)
        (d : disk) (db_file db_file' : database) (variant_unit : string)
        (pre post connectivity' : list Z) (c1 : Z) (perfect_only' : bool)
        (suffix : string) (data : list row) (e : exn) :
  select_cbgm db_file variant_unit = Ok data →
  (∀ x, x ∈ data → row_label x ≠ "") →
  (∀ x, x ∈ data →
     ∃ coh, GC db_file (row_witness x) variant_unit = Ok coh ∧
            ∀ c, c ∈ pre ++ c1 :: post →
                 d !! output_file_name variant_unit c suffix = None →
                 coh (row_label x) (row_parent x) c ≠ None) →
  (∀ G rm, write_dot G rm = Ok tt) →
  (∀ f, open_w f = Ok tt) →
  (∀ G rm, dot G rm = Raise e) →
  (∀ c, c ∈ pre → is_Some (d !! output_file_name variant_unit c suffix)) →
  d !! output_file_name variant_unit c1 suffix = None →
  let d1 := <[output_file_name variant_unit c1 suffix := None]> d in
  Process.init OL_PARENT GC select_cbgm write_dot open_w dot
    db_file variant_unit (pre ++ c1 :: post) false suffix d = (Raise e, d1) ∧
  (Process.init OL_PARENT GC' select_cbgm' write_dot' open_w' dot'
     db_file' variant_unit connectivity' perfect_only' suffix d1).2
    !! output_file_name variant_unit c1 suffix = Some None.
Proof.
  intros Hsel Hlab Hprov Hw Ho Hd Hpre Habs d1. split.
  - unfold Process.init.
    pose proof (set_up_connectivity d db_file variant_unit (pre ++ c1 :: post)
                  false suffix) as Hconn.
    rewrite (first_absent_threshold _ _ _ _ _ _ Hpre Habs) in Hconn.
    pose proof (set_up_named d db_file variant_unit (pre ++ c1 :: post) false
                  suffix) as Hnamed.
    set (self := Process.set_up d db_file variant_unit (pre ++ c1 :: post)
                   false suffix) in *.
    assert (Hdb : TextualFlow.db_file self = db_file) by done.
    assert (Hvu : TextualFlow.variant_unit self = variant_unit) by done.
    assert (Hpo : TextualFlow.perfect_only self = false) by done.
    clearbody self.
    assert (Hin1 : c1 ∈ TextualFlow.connectivity self)
      by (rewrite Hconn; by left).
    rewrite decide_False.
    2: { intros Hempty. specialize (Hnamed c1 Hin1).
         rewrite Hempty, lookup_empty in Hnamed. done. }
    destruct (process_textual_flow_draws OL_PARENT GC select_cbgm write_dot
                open_w dot self data d) as (ws & self' & -> & Hof & Hp & Hlk).
    { by rewrite Hdb, Hvu. }
    { done. }
    { rewrite Hdb, Hvu. intros x Hx.
      destruct (Hprov x Hx) as (coh & Hcoh & Hans).
      exists coh. split; [done |]. intros c Hc.
      pose proof (set_up_connectivity d db_file variant_unit
                    (pre ++ c1 :: post) false suffix) as Hall.
      assert (Hc' : c ∈ filter (artifact_absent (path_exists d) variant_unit
                                  suffix) (pre ++ c1 :: post)).
      { rewrite (first_absent_threshold _ _ _ _ _ _ Hpre Habs).
        by rewrite <- Hconn. }
      apply list_elem_of_filter in Hc' as [Hca Hcin].
      apply Hans; [done |]. by apply absent_on_disk. }
    rewrite Hconn. simpl. unfold sbind.
    rewrite process_draw_diagram_cases.
    destruct (draw_diagram_returns self' c1 data ws) as ([[f G] rm] & Ha).
    + by rewrite Hp.
    + rewrite Hof, (Hnamed c1 Hin1). by eexists.
    + intros x Hx. by apply Hlk.
    + rewrite Ha.
      pose proof (draw_diagram_file _ _ _ _ _ _ _ Ha) as Hf.
      rewrite Hof, (Hnamed c1 Hin1) in Hf. inversion Hf; subst f.
      by rewrite Hw, Ho, Hd.
  - rewrite process_init_frame.
    + unfold d1. by rewrite lookup_insert_eq.
    + intros c Hc Hnone Heq. apply output_file_name_inj in Heq. subst c.
      unfold d1 in Hnone. by rewrite lookup_insert_eq in Hnone.
Qed.

Lemma failed_dot_leaves_empty_artifact_witness :
  let d1 := <[output_file_name "1/1" 5 "" := None]> Scenario.disk_c3 in
  Process.init "OL_PARENT" (Scenario.builds Scenario.coh_abc)
    (Scenario.answers Scenario.rows_abc) Scenario.writes Scenario.opens
    Scenario.no_dot tt "1/1" ([3] ++ 5 :: [7]) false "" Scenario.disk_c3
  = (Raise (Other "FileNotFoundError"), d1) ∧
  (Process.init "OL_PARENT" (Scenario.builds Scenario.coh_abc)
     (Scenario.answers Scenario.rows_abc) Scenario.writes Scenario.opens
     Scenario.writes tt "1/1" [3; 5; 7] false "" d1).2
    !! output_file_name "1/1" 5 "" = Some None.
Proof.
  apply (failed_dot_leaves_empty_artifact "OL_PARENT"
           (Scenario.builds Scenario.coh_abc) (Scenario.builds Scenario.coh_abc)
           (Scenario.answers Scenario.rows_abc)
           (Scenario.answers Scenario.rows_abc)
           Scenario.writes Scenario.writes Scenario.opens Scenario.opens
           Scenario.no_dot Scenario.writes Scenario.disk_c3 tt tt "1/1"
           [3] [7] [3; 5; 7] 5 false "" (Scenario.rows_abc tt "1/1")
           (Other "FileNotFoundError")); try done.
  - intros x Hin.
    apply elem_of_cons in Hin as [-> | Hin]; [done |].
    apply elem_of_cons in Hin as [-> | Hin]; [done |].
    apply elem_of_cons in Hin as [-> | Hin]; [done |].
    by apply elem_of_nil in Hin.
  - intros x Hx. eexists. split; [reflexivity |]. intros c _ _.
    apply elem_of_cons in Hx as [-> | Hx]; [done |].
    apply elem_of_cons in Hx as [-> | Hx]; [done |].
    apply elem_of_cons in Hx as [-> | Hx]; [done |].
    by apply elem_of_nil in Hx.
  - intros c Hc. apply elem_of_cons in Hc as [-> | Hc]; [by eexists |].
    by apply elem_of_nil in Hc.
Defined.
